(** * Nitro: the JIT validation host and the retryable-ticket registry

    A shallow embedding of two Go packages of the repository,

    - [validator/server_jit/jit_machine.go]: [JitMachine.prove], the framed
      request/response exchange with the forked prover, and
    - package [retryables]: [RetryableState] and [Retryable], the registry of
      retryable tickets laid over the ArbOS storage abstraction,

    together with the properties that the specification states about them.

    Conventions.  A [uint64] is a [Z] with Go's wrap-around written out
    ([uint64]); a byte is [Init.Byte.byte]; a [common.Hash] ([[32]byte]) and a
    [common.Address] ([[20]byte]) are byte lists of that length; a [*big.Int]
    is a [Z]; a nilable Go pointer or slice is an [option]. *)

From Stdlib Require Import ZArith Lia List Ascii String.
From stdpp Require Import gmap list.
From coqutil Require Import Byte Word.LittleEndianList.

Local Open Scope Z_scope.

(** ** Bytes and fixed-width integers *)

Abbreviation byte := Init.Byte.byte.

#[global] Instance byte_eq_decision : EqDecision byte.
Proof.
  intros a b. destruct (Z.eq_dec (byte.unsigned a) (byte.unsigned b)) as [E|E].
  - left. now apply byte.unsigned_inj.
  - right. intros ->. now apply E.
Defined.

#[global] Instance byte_countable : Countable byte :=
  inj_countable' byte.unsigned byte.of_Z byte.of_Z_unsigned.

Abbreviation x00 := Init.Byte.x00.

(** Go's conversion [uint64(x)] and the result of [uint64] arithmetic. *)
Definition uint64 (x : Z) : Z := x mod 2 ^ 64.

(** Go's conversion [int64(x)] of a [uint64]: the two's complement reading. *)
Definition int64 (x : Z) : Z := (x + 2 ^ 63) mod 2 ^ 64 - 2 ^ 63.

(** [len(s)] as a Go integer. *)
Definition len {A} (s : list A) : Z := Z.of_nat (length s).

(** *** encoding/binary *)

(** [binary.BigEndian.PutUint64(b, v)] on a fresh 8-byte slice. *)
Definition BigEndian_PutUint64 (v : Z) : list byte :=
  [ byte.of_Z (v ≫ 56); byte.of_Z (v ≫ 48); byte.of_Z (v ≫ 40);
    byte.of_Z (v ≫ 32); byte.of_Z (v ≫ 24); byte.of_Z (v ≫ 16);
    byte.of_Z (v ≫ 8); byte.of_Z v ].

(** [binary.BigEndian.Uint64(b)].  Go panics on a slice shorter than eight
    bytes; every caller below passes the result of an 8-byte read, and the
    model returns [0] on the unreachable short input. *)
Definition BigEndian_Uint64 (b : list byte) : Z :=
  match b with
  | b0 :: b1 :: b2 :: b3 :: b4 :: b5 :: b6 :: b7 :: _ =>
      Z.lor (byte.unsigned b7)
     (Z.lor (byte.unsigned b6 ≪ 8)
     (Z.lor (byte.unsigned b5 ≪ 16)
     (Z.lor (byte.unsigned b4 ≪ 24)
     (Z.lor (byte.unsigned b3 ≪ 32)
     (Z.lor (byte.unsigned b2 ≪ 40)
     (Z.lor (byte.unsigned b1 ≪ 48)
            (byte.unsigned b0 ≪ 56)))))))
  | _ => 0
  end.

(** [binary.LittleEndian.PutUint64(b, v)] on a fresh 8-byte slice. *)
Definition LittleEndian_PutUint64 (v : Z) : list byte :=
  [ byte.of_Z v; byte.of_Z (v ≫ 8); byte.of_Z (v ≫ 16);
    byte.of_Z (v ≫ 24); byte.of_Z (v ≫ 32); byte.of_Z (v ≫ 40);
    byte.of_Z (v ≫ 48); byte.of_Z (v ≫ 56) ].

(** The value of a byte string read as a big-endian natural number
    ([big.Int.SetBytes]). *)
Definition be_combine (bs : list byte) : Z := le_combine (rev bs).

(** The [n]-byte big-endian representation of [v mod 2^(8n)]. *)
Definition be_split (n : nat) (v : Z) : list byte := rev (le_split n v).

(** ** go-ethereum's [common] package: hashes and addresses *)

Module common.

Definition HashLength : nat := 32.
Definition AddressLength : nat := 20.

(** [common.Hash] is [[32]byte], [common.Address] is [[20]byte]. *)
Abbreviation Hash := (list byte).
Abbreviation Address := (list byte).

(** The zero value [common.Hash{}]. *)
Definition zeroHash : Hash := repeat x00 HashLength.
Definition zeroAddress : Address := repeat x00 AddressLength.

(** [SetBytes]: a longer input is cropped from the left, a shorter one is
    right-aligned in the zeroed array. *)
Definition setBytes (n : nat) (b : list byte) : list byte :=
  let b := drop (length b - n) b in
  repeat x00 (n - length b) ++ b.

Definition BytesToHash (b : list byte) : Hash := setBytes HashLength b.
Definition BytesToAddress (b : list byte) : Address := setBytes AddressLength b.

(** [big.Int.Bytes]: the absolute value, big-endian, without leading zero
    bytes. *)
Definition big_byteLen (v : Z) : nat :=
  if Z.abs v =? 0 then 0%nat else Z.to_nat (Z.log2 (Z.abs v) / 8 + 1).
Definition big_Bytes (v : Z) : list byte :=
  be_split (big_byteLen v) (Z.abs v).

Definition BigToHash (v : Z) : Hash := BytesToHash (big_Bytes v).

(** [Hash.Big]. *)
Definition Big (h : Hash) : Z := be_combine h.

(** [big.Int.Uint64]: the low 64 bits. *)
Definition Uint64 (v : Z) : Z := uint64 v.

(** [hex.DecodeString] as used by [common.FromHex]: decoding stops at the
    first character that is not a hexadecimal digit. *)
Definition hexDigit (c : ascii) : option Z :=
  let n := Z.of_N (N_of_ascii c) in
  if (48 <=? n) && (n <=? 57) then Some (n - 48)
  else if (97 <=? n) && (n <=? 102) then Some (n - 87)
  else if (65 <=? n) && (n <=? 70) then Some (n - 55)
  else None.

Fixpoint hexDecode (s : string) : list byte :=
  match s with
  | String hi (String lo rest) =>
      match hexDigit hi, hexDigit lo with
      | Some h, Some l => byte.of_Z (16 * h + l) :: hexDecode rest
      | _, _ => []
      end
  | _ => []
  end.

(** [common.FromHex]: an optional [0x] prefix is dropped and an odd number
    of digits gets a leading zero digit. *)
Definition FromHex (s : string) : list byte :=
  let s := match s with
           | String "0" (String "x" r) => r
           | String "0" (String "X" r) => r
           | _ => s
           end in
  let s := if Nat.odd (String.length s) then String "0" s else s in
  hexDecode s.

Definition HexToHash (s : string) : Hash := BytesToHash (FromHex s).

End common.

(** ** The JIT validation host: [validator/server_jit/jit_machine.go] *)

Module server_jit.

(** *** Data of package [validator] *)

(** [validator.GoGlobalState], with the fields that the composite literals
    of [ignoreProveBlocks] name. *)
Record GoGlobalState := {
  Batch : Z;
  PosInBatch : Z;
  BlockHash : common.Hash;
  SendRoot : common.Hash
}.

(** Modelled from the spec: [validator.BatchInfo], an entry [(number, data)]
    of [batch_info], under the field names that [prove] uses. *)
Record BatchInfo := { Number : Z; Data : list byte }.

(** Modelled from the spec: [validator.ValidationInput], whose declaration is
    not among the sources; the fields are those of section 3 of the
    specification under the names that [prove] uses.  [Preimages] is the Go
    map from preimage kind to the map from hash to preimage. *)
Record ValidationInput := {
  Id : Z;
  StartState : GoGlobalState;
  BatchInfos : list BatchInfo;
  HasDelayedMsg : bool;
  DelayedMsgNr : Z;
  DelayedMsg : list byte;
  Preimages : gmap Z (gmap (list byte) (list byte))
}.

(** Modelled from the spec: [arbmath.UintToBytes], which is not among the
    sources.  Section 6: wire protocol integers are big-endian 8 bytes. *)
Definition UintToBytes (value : Z) : list byte := BigEndian_PutUint64 value.

(** *** Errors and the outside world *)

(** Go [error] values that [prove] can return. *)
Inductive error :=
| errors_New (text : string)      (* errors.New(text) *)
| io_EOF                          (* io.EOF *)
| io_ErrUnexpectedEOF             (* io.ErrUnexpectedEOF *)
| os_error (text : string).       (* an error reported by a socket or pipe *)

(** The [Error()] method. *)
Definition Error (e : error) : string :=
  match e with
  | errors_New text => text
  | io_EOF => "EOF"
  | io_ErrUnexpectedEOF => "unexpected EOF"
  | os_error text => text
  end.

(** What [prove] does to the child's stdin, the listener and the
    connection, in program order. *)
Inductive Event :=
| ListenTCP
| ListenerSetDeadline
| StdinWrite (data : list byte)
| Accept
| ConnSetReadDeadline
| ConnSetWriteDeadline
| ConnWrite (data : list byte)
| ConnRead (count : Z).

(** The order in which the Go runtime visits the entries of the maps of a
    request.  Go leaves the order of a [range] loop over a map unspecified,
    and it differs from one run to the next.  The runtime is modelled as
    ranking the keys: a loop visits the entries by ascending rank.
    [kindRank] ranks the keys of [entry.Preimages]; [preimageRank ty] ranks
    the keys of the inner map of the kind [ty]. *)
Record MapOrder := mkMapOrder {
  kindRank : Z -> nat;
  preimageRank : Z -> list byte -> nat
}.

(** The environment of one [prove] call: [failures n] is the error, if any,
    that the [n]-th operation runs into; [listenerAddr] is what
    [tcp.Addr().String()] returns; [mapOrder] is the order in which the
    runtime walks the maps during this call; [incoming] are the bytes that
    the child sends before it closes the connection; [trace] records the
    operations performed so far. *)
Record World := mkWorld {
  failures : nat -> option error;
  listenerAddr : string;
  mapOrder : MapOrder;
  incoming : list byte;
  trace : list Event
}.

Definition record (ev : Event) (w : World) : World :=
  mkWorld (failures w) (listenerAddr w) (mapOrder w) (incoming w) (trace w ++ [ev]).

(** Computations that end in a Go [error] or a value. *)
Definition IO (A : Type) : Type := World -> (error + A) * World.

Definition ret {A} (a : A) : IO A := fun w => (inr a, w).

Definition bind {A B} (c : IO A) (k : A -> IO B) : IO B :=
  fun w => match c w with
           | (inl err, w') => (inl err, w')
           | (inr a, w') => k a w'
           end.

Declare Scope io_scope.
Delimit Scope io_scope with io.
Notation "x <- c ;; k" := (bind c (fun x => k))
  (at level 100, c at next level, right associativity) : io_scope.
Notation "c ;; k" := (bind c (fun _ => k))
  (at level 100, right associativity) : io_scope.
Local Open Scope io_scope.

(** An operation on the listener, the pipe or the connection. *)
Definition syscall (ev : Event) : IO unit :=
  fun w => match failures w (length (trace w)) with
           | Some err => (inl err, record ev w)
           | None => (inr tt, record ev w)
           end.

(** The [for _, x := range xs] loop whose body returns on error. *)
Fixpoint forEach {A} (xs : list A) (body : A -> IO unit) : IO unit :=
  match xs with
  | [] => ret tt
  | x :: xs' => body x ;; forEach xs' body
  end.

(** The entries of a map in the order of a ranking of its keys: ascending
    rank, and entries of the same rank in the order of [map_to_list].  Every
    ranking gives an arrangement of the entries, each entry once, and every
    arrangement of the entries is the one of some ranking (see
    [rangeOver_Permutation] and [rangeOver_complete] below). *)
Fixpoint insertByRank {K V} (rank : K -> nat) (kv : K * V) (l : list (K * V))
    : list (K * V) :=
  match l with
  | [] => [kv]
  | kv' :: l' =>
      if (rank kv.1 <=? rank kv'.1)%nat then kv :: l
      else kv' :: insertByRank rank kv l'
  end.

Definition rangeOver {K V} `{Countable K} (rank : K -> nat) (m : gmap K V)
    : list (K * V) :=
  foldr (insertByRank rank) [] (map_to_list m).

(** The rank of a key in an arrangement: its position. *)
Fixpoint position {K} `{EqDecision K} (keys : list K) (k : K) : nat :=
  match keys with
  | [] => 0%nat
  | k' :: keys' => if decide (k = k') then 0%nat else S (position keys' k)
  end.

(** A list of entries whose ranks ascend strictly. *)
Fixpoint ascending {K V} (rank : K -> nat) (l : list (K * V)) : Prop :=
  match l with
  | [] => True
  | kv :: l' => Forall (fun kv' => rank kv.1 < rank kv'.1)%nat l' /\ ascending rank l'
  end.

(** The [for k, v := range m] loop over a map whose body returns on error:
    the order of the visits is the one that the environment gives to this
    map. *)
Definition rangeMap {K V} `{Countable K} (rank : MapOrder -> K -> nat)
    (m : gmap K V) (body : K * V -> IO unit) : IO unit :=
  fun w => forEach (rangeOver (rank (mapOrder w)) m) body w.

(** *** The closures of [prove] *)

Definition writeExact (data : list byte) : IO unit := syscall (ConnWrite data).
Definition writeUint8 (data : Z) : IO unit := writeExact [byte.of_Z data].
Definition writeUint64 (data : Z) : IO unit := writeExact (UintToBytes data).
Definition writeBytes (data : list byte) : IO unit :=
  writeUint64 (uint64 (len data)) ;; writeExact data.

(** [read]: [io.ReadFull] into a fresh slice of [count] bytes.  For an empty
    slice it returns at once; a stream that ends early gives [io.EOF] when
    nothing was read and [io.ErrUnexpectedEOF] otherwise. *)
Definition read (count : Z) : IO (list byte) :=
  fun w =>
    if count =? 0 then (inr [], w)
    else
      let w' := record (ConnRead count) w in
      match failures w (length (trace w)) with
      | Some err => (inl err, w')
      | None =>
          let n := Z.to_nat count in
          if (n <=? length (incoming w))%nat then
            (inr (take n (incoming w)),
             mkWorld (failures w') (listenerAddr w') (mapOrder w') (drop n (incoming w)) (trace w'))
          else
            (inl (match incoming w with
                  | [] => io_EOF
                  | _ => io_ErrUnexpectedEOF
                  end),
             mkWorld (failures w') (listenerAddr w') (mapOrder w') [] (trace w'))
      end.

Definition readUint64 : IO Z :=
  slice <- read 8 ;; ret (BigEndian_Uint64 slice).

Definition readHash : IO common.Hash :=
  slice <- read 32 ;; ret (common.BytesToHash slice).

Definition successByte : byte := Init.Byte.x00.
Definition failureByte : byte := Init.Byte.x01.
Definition anotherByte : byte := Init.Byte.x03.
Definition readyByte : byte := Init.Byte.x04.

Definition success : list byte := [successByte].
Definition another : list byte := [anotherByte].
Definition ready : list byte := [readyByte].

(** *** [prove], in three stretches *)

(** [fmt.Sprintf("%v\n", tcp.Addr().String())]. *)
Definition formatAddress : IO string :=
  fun w => (inr (listenerAddr w ++ String "010" EmptyString)%string, w).

(** From [net.ListenTCP] to [conn.SetWriteDeadline]: the rendezvous. *)
Definition rendezvous : IO unit :=
  syscall ListenTCP ;;
  syscall ListenerSetDeadline ;;
  address <- formatAddress ;;
  syscall (StdinWrite (list_byte_of_string address)) ;;
  syscall Accept ;;
  syscall ConnSetReadDeadline ;;
  syscall ConnSetWriteDeadline.

(** From "send global state" to the ready byte.  The two [range] loops over
    Go maps visit the entries in the order that the environment gives. *)
Definition sendRequest (entry : ValidationInput) : IO unit :=
  (* send global state *)
  writeUint64 (Batch (StartState entry)) ;;
  writeUint64 (PosInBatch (StartState entry)) ;;
  writeExact (BlockHash (StartState entry)) ;;
  writeExact (SendRoot (StartState entry)) ;;
  (* send inbox *)
  forEach (BatchInfos entry) (fun batch =>
    writeExact another ;;
    writeUint64 (Number batch) ;;
    writeBytes (Data batch)) ;;
  writeExact success ;;
  (* send delayed inbox *)
  (if HasDelayedMsg entry then
     writeExact another ;;
     writeUint64 (DelayedMsgNr entry) ;;
     writeBytes (DelayedMsg entry)
   else ret tt) ;;
  writeExact success ;;
  (* send known preimages *)
  let preimageTypes := Preimages entry in
  writeUint64 (uint64 (Z.of_nat (size preimageTypes))) ;;
  rangeMap kindRank preimageTypes (fun '(ty, preimages) =>
    writeUint8 ty ;;
    writeUint64 (uint64 (Z.of_nat (size preimages))) ;;
    rangeMap (fun order => preimageRank order ty) preimages
      (fun '(hash, preimage) =>
        writeExact hash ;;
        writeBytes preimage)) ;;
  (* signal that we are done sending global state *)
  writeExact ready.

(** The zero value [validator.GoGlobalState{}]. *)
Definition zeroState : GoGlobalState :=
  {| Batch := 0; PosInBatch := 0;
     BlockHash := common.zeroHash; SendRoot := common.zeroHash |}.

Definition ipcFailure : string := "inter-process communication failure".

(** The final [for] loop: every path through its body returns, so it runs
    once.  [state] is the zero state on entry and is returned as far as it
    has been filled in. *)
Definition readResponse (w : World) : (GoGlobalState * option error) * World :=
  let state := zeroState in
  match read 1 w with
  | (inl err, w) => ((state, Some err), w)
  | (inr kind, w) =>
      let kind0 := hd x00 kind in
      if decide (kind0 = failureByte) then
        match readUint64 w with
        | (inl err, w) => ((state, Some err), w)
        | (inr length, w) =>
            match read length w with
            | (inl err, w) => ((state, Some err), w)
            | (inr message, w) =>
                ((state, Some (errors_New (string_of_list_byte message))), w)
            end
        end
      else if decide (kind0 = successByte) then
        match readUint64 w with
        | (inl err, w) => ((state, Some err), w)
        | (inr batch, w) =>
            let state := {| Batch := batch; PosInBatch := 0;
                            BlockHash := common.zeroHash;
                            SendRoot := common.zeroHash |} in
            match readUint64 w with
            | (inl err, w) => ((state, Some err), w)
            | (inr pos, w) =>
                let state := {| Batch := batch; PosInBatch := pos;
                                BlockHash := common.zeroHash;
                                SendRoot := common.zeroHash |} in
                match readHash w with
                | (inl err, w) => ((state, Some err), w)
                | (inr blockHash, w) =>
                    let state := {| Batch := batch; PosInBatch := pos;
                                    BlockHash := blockHash;
                                    SendRoot := common.zeroHash |} in
                    match readHash w with
                    | (inl err, w) => ((state, Some err), w)
                    | (inr sendRoot, w) =>
                        ({| Batch := batch; PosInBatch := pos;
                            BlockHash := blockHash;
                            SendRoot := sendRoot |}, None, w)
                    end
                end
            end
        end
      else
        ((state, Some (errors_New ipcFailure)), w)
  end.

Section Prove.

(** The table [ignoreProveBlocks] that the package is compiled with. *)
Variable ignoreList : gmap Z GoGlobalState.

(** [JitMachine.prove].  The receiver matters only through its stdin
    pipe, which is part of the [World]; the context, the instants of the
    deadlines, the log lines and the two goroutines that close the sockets
    once the call is over are left out. *)
Definition prove_with (entry : ValidationInput) (w : World)
  : (GoGlobalState * option error) * World :=
  let state := zeroState in
  match ignoreList !! Id entry with
  | Some s => ((s, None), w)
  | None =>
      match (rendezvous ;; sendRequest entry) w with
      | (inl err, w) => ((state, Some err), w)
      | (inr _, w) => readResponse w
      end
  end.

End Prove.

(** [ignoreProveBlocks] of [validator/server_jit/jit_machine.go]. *)
Definition ignoreProveBlocks : gmap Z GoGlobalState := list_to_map [
  (4083577, {| Batch := 9178; PosInBatch := 480;
     BlockHash := common.HexToHash "0xda2d176f5b585b131e1272efbfe458d4682938263fdeda42982083fb14186a84";
     SendRoot := common.HexToHash "0x73e3fd5339538bb97fb2ab3f1affc7971c8ea591c1f324e22cbc5b4d01b7b4ee" |});
  (4083578, {| Batch := 9178; PosInBatch := 481;
     BlockHash := common.HexToHash "0x4643b7fc485bb82016e471e5b529350d7214254a268db44441674245c3a7517c";
     SendRoot := common.HexToHash "0x73e3fd5339538bb97fb2ab3f1affc7971c8ea591c1f324e22cbc5b4d01b7b4ee" |});
  (4083579, {| Batch := 9178; PosInBatch := 482;
     BlockHash := common.HexToHash "0x7f844e45bda074a45d1def5c782cb935c08ce41b70e1ed47630f6c6fb09d3dee";
     SendRoot := common.HexToHash "0x73e3fd5339538bb97fb2ab3f1affc7971c8ea591c1f324e22cbc5b4d01b7b4ee" |});
  (4083580, {| Batch := 9178; PosInBatch := 483;
     BlockHash := common.HexToHash "0xab716dec1cddcd6dbc8a030faf5e42d8a21564954fe41ce056e32786f07c1c27";
     SendRoot := common.HexToHash "0x73e3fd5339538bb97fb2ab3f1affc7971c8ea591c1f324e22cbc5b4d01b7b4ee" |});
  (4083581, {| Batch := 9178; PosInBatch := 484;
     BlockHash := common.HexToHash "0xe48aa1956b16280067fecbacc204ae7f8ef88c0545ddb31324610f0cd9ce7665";
     SendRoot := common.HexToHash "0x73e3fd5339538bb97fb2ab3f1affc7971c8ea591c1f324e22cbc5b4d01b7b4ee" |});
  (4083583, {| Batch := 9178; PosInBatch := 486;
     BlockHash := common.HexToHash "0xbca6c7d5d8a7384d7420d2cf99c90e7982e0fbc5da77f45de840351a3778988a";
     SendRoot := common.HexToHash "0x73e3fd5339538bb97fb2ab3f1affc7971c8ea591c1f324e22cbc5b4d01b7b4ee" |});
  (4083584, {| Batch := 9178; PosInBatch := 487;
     BlockHash := common.HexToHash "0xde2b7be88b2838094cad4c5fca4e1c8984a81b678f6ced24ffeacca0988a9946";
     SendRoot := common.HexToHash "0x73e3fd5339538bb97fb2ab3f1affc7971c8ea591c1f324e22cbc5b4d01b7b4ee" |});
  (4083585, {| Batch := 9178; PosInBatch := 488;
     BlockHash := common.HexToHash "0x3146e38c86d842493946b714a5b5f75e2b0f552c7ba7acfd7d034696d56544fc";
     SendRoot := common.HexToHash "0x73e3fd5339538bb97fb2ab3f1affc7971c8ea591c1f324e22cbc5b4d01b7b4ee" |});
  (4083586, {| Batch := 9178; PosInBatch := 489;
     BlockHash := common.HexToHash "0x8054732b1def267a85382edb974f435ca3f44d9c700b23c88b281a5fafa4d9f4";
     SendRoot := common.HexToHash "0x73e3fd5339538bb97fb2ab3f1affc7971c8ea591c1f324e22cbc5b4d01b7b4ee" |});
  (4083587, {| Batch := 9178; PosInBatch := 490;
     BlockHash := common.HexToHash "0x7a4ef5ef2e7c4aa9f36ded5edcc8c47f587a403e407911da83a72a4efab292e2";
     SendRoot := common.HexToHash "0x73e3fd5339538bb97fb2ab3f1affc7971c8ea591c1f324e22cbc5b4d01b7b4ee" |});
  (4083588, {| Batch := 9178; PosInBatch := 491;
     BlockHash := common.HexToHash "0x80250435557ced666a271de830306624a019fd101b4e4ca041551dd78d612702";
     SendRoot := common.HexToHash "0x73e3fd5339538bb97fb2ab3f1affc7971c8ea591c1f324e22cbc5b4d01b7b4ee" |});
  (4083589, {| Batch := 9178; PosInBatch := 492;
     BlockHash := common.HexToHash "0x7b3baf30c3a8d7b0fc40d6efab0b943f1f37aba28eb77774681f8c337c3df870";
     SendRoot := common.HexToHash "0x73e3fd5339538bb97fb2ab3f1affc7971c8ea591c1f324e22cbc5b4d01b7b4ee" |});
  (4083590, {| Batch := 9178; PosInBatch := 493;
     BlockHash := common.HexToHash "0x5b31ddcd152beed2b56bf36ab68ae90daf9f7a7141a663de0254bf3549dfc0dd";
     SendRoot := common.HexToHash "0x73e3fd5339538bb97fb2ab3f1affc7971c8ea591c1f324e22cbc5b4d01b7b4ee" |});
  (4083591, {| Batch := 9178; PosInBatch := 494;
     BlockHash := common.HexToHash "0x3ba2aca6f6ec209b642fe6f8cfcddda1ae23c3ed3e4124c544298b139d107545";
     SendRoot := common.HexToHash "0x73e3fd5339538bb97fb2ab3f1affc7971c8ea591c1f324e22cbc5b4d01b7b4ee" |}) ].

(** The same table in the other revision of the file among the sources,
    which lists more blocks. *)
Definition ignoreProveBlocks_rev2 : gmap Z GoGlobalState := list_to_map [
  (4083577, {| Batch := 9178; PosInBatch := 480;
     BlockHash := common.HexToHash "0xda2d176f5b585b131e1272efbfe458d4682938263fdeda42982083fb14186a84";
     SendRoot := common.HexToHash "0x73e3fd5339538bb97fb2ab3f1affc7971c8ea591c1f324e22cbc5b4d01b7b4ee" |});
  (4083578, {| Batch := 9178; PosInBatch := 481;
     BlockHash := common.HexToHash "0x4643b7fc485bb82016e471e5b529350d7214254a268db44441674245c3a7517c";
     SendRoot := common.HexToHash "0x73e3fd5339538bb97fb2ab3f1affc7971c8ea591c1f324e22cbc5b4d01b7b4ee" |});
  (4083579, {| Batch := 9178; PosInBatch := 482;
     BlockHash := common.HexToHash "0x7f844e45bda074a45d1def5c782cb935c08ce41b70e1ed47630f6c6fb09d3dee";
     SendRoot := common.HexToHash "0x73e3fd5339538bb97fb2ab3f1affc7971c8ea591c1f324e22cbc5b4d01b7b4ee" |});
  (4083580, {| Batch := 9178; PosInBatch := 483;
     BlockHash := common.HexToHash "0xab716dec1cddcd6dbc8a030faf5e42d8a21564954fe41ce056e32786f07c1c27";
     SendRoot := common.HexToHash "0x73e3fd5339538bb97fb2ab3f1affc7971c8ea591c1f324e22cbc5b4d01b7b4ee" |});
  (4083581, {| Batch := 9178; PosInBatch := 484;
     BlockHash := common.HexToHash "0xe48aa1956b16280067fecbacc204ae7f8ef88c0545ddb31324610f0cd9ce7665";
     SendRoot := common.HexToHash "0x73e3fd5339538bb97fb2ab3f1affc7971c8ea591c1f324e22cbc5b4d01b7b4ee" |});
  (4083583, {| Batch := 9178; PosInBatch := 486;
     BlockHash := common.HexToHash "0xbca6c7d5d8a7384d7420d2cf99c90e7982e0fbc5da77f45de840351a3778988a";
     SendRoot := common.HexToHash "0x73e3fd5339538bb97fb2ab3f1affc7971c8ea591c1f324e22cbc5b4d01b7b4ee" |});
  (4083584, {| Batch := 9178; PosInBatch := 487;
     BlockHash := common.HexToHash "0xde2b7be88b2838094cad4c5fca4e1c8984a81b678f6ced24ffeacca0988a9946";
     SendRoot := common.HexToHash "0x73e3fd5339538bb97fb2ab3f1affc7971c8ea591c1f324e22cbc5b4d01b7b4ee" |});
  (4083585, {| Batch := 9178; PosInBatch := 488;
     BlockHash := common.HexToHash "0x3146e38c86d842493946b714a5b5f75e2b0f552c7ba7acfd7d034696d56544fc";
     SendRoot := common.HexToHash "0x73e3fd5339538bb97fb2ab3f1affc7971c8ea591c1f324e22cbc5b4d01b7b4ee" |});
  (4083586, {| Batch := 9178; PosInBatch := 489;
     BlockHash := common.HexToHash "0x8054732b1def267a85382edb974f435ca3f44d9c700b23c88b281a5fafa4d9f4";
     SendRoot := common.HexToHash "0x73e3fd5339538bb97fb2ab3f1affc7971c8ea591c1f324e22cbc5b4d01b7b4ee" |});
  (4083587, {| Batch := 9178; PosInBatch := 490;
     BlockHash := common.HexToHash "0x7a4ef5ef2e7c4aa9f36ded5edcc8c47f587a403e407911da83a72a4efab292e2";
     SendRoot := common.HexToHash "0x73e3fd5339538bb97fb2ab3f1affc7971c8ea591c1f324e22cbc5b4d01b7b4ee" |});
  (4083588, {| Batch := 9178; PosInBatch := 491;
     BlockHash := common.HexToHash "0x80250435557ced666a271de830306624a019fd101b4e4ca041551dd78d612702";
     SendRoot := common.HexToHash "0x73e3fd5339538bb97fb2ab3f1affc7971c8ea591c1f324e22cbc5b4d01b7b4ee" |});
  (4083589, {| Batch := 9178; PosInBatch := 492;
     BlockHash := common.HexToHash "0x7b3baf30c3a8d7b0fc40d6efab0b943f1f37aba28eb77774681f8c337c3df870";
     SendRoot := common.HexToHash "0x73e3fd5339538bb97fb2ab3f1affc7971c8ea591c1f324e22cbc5b4d01b7b4ee" |});
  (4083590, {| Batch := 9178; PosInBatch := 493;
     BlockHash := common.HexToHash "0x5b31ddcd152beed2b56bf36ab68ae90daf9f7a7141a663de0254bf3549dfc0dd";
     SendRoot := common.HexToHash "0x73e3fd5339538bb97fb2ab3f1affc7971c8ea591c1f324e22cbc5b4d01b7b4ee" |});
  (4083591, {| Batch := 9178; PosInBatch := 494;
     BlockHash := common.HexToHash "0x3ba2aca6f6ec209b642fe6f8cfcddda1ae23c3ed3e4124c544298b139d107545";
     SendRoot := common.HexToHash "0x73e3fd5339538bb97fb2ab3f1affc7971c8ea591c1f324e22cbc5b4d01b7b4ee" |});
  (4083748, {| Batch := 9178; PosInBatch := 651;
     BlockHash := common.HexToHash "0x3e09fd518f880a952817561f390f28150875cdfc82e646c8325c6b68fd63ab2f";
     SendRoot := common.HexToHash "0x73e3fd5339538bb97fb2ab3f1affc7971c8ea591c1f324e22cbc5b4d01b7b4ee" |});
  (4083749, {| Batch := 9178; PosInBatch := 652;
     BlockHash := common.HexToHash "0xd9ffa49df6c0931f0a748b8dcf78e50393f7a10c2cecf3fd3e8d9ece23adbdd2";
     SendRoot := common.HexToHash "0x73e3fd5339538bb97fb2ab3f1affc7971c8ea591c1f324e22cbc5b4d01b7b4ee" |});
  (4083750, {| Batch := 9178; PosInBatch := 653;
     BlockHash := common.HexToHash "0x1051568779341313cfc41bb6425c99031d8cc847b510e964aed8eac2333aa697";
     SendRoot := common.HexToHash "0x73e3fd5339538bb97fb2ab3f1affc7971c8ea591c1f324e22cbc5b4d01b7b4ee" |});
  (4083751, {| Batch := 9178; PosInBatch := 654;
     BlockHash := common.HexToHash "0x1d798a555187a0f80d2f38e6b0079d4fe8a3a1d57febe11cf442f17e3149d9b0";
     SendRoot := common.HexToHash "0x73e3fd5339538bb97fb2ab3f1affc7971c8ea591c1f324e22cbc5b4d01b7b4ee" |});
  (4083752, {| Batch := 9178; PosInBatch := 655;
     BlockHash := common.HexToHash "0x338c0954729d69e259e220d97486e9edeb12f58d2cd17986374bbb075d21309b";
     SendRoot := common.HexToHash "0x73e3fd5339538bb97fb2ab3f1affc7971c8ea591c1f324e22cbc5b4d01b7b4ee" |});
  (4083753, {| Batch := 9178; PosInBatch := 656;
     BlockHash := common.HexToHash "0x029cf4307f5fa3c4920acd16f4d936b94264f46c3765435e9f3c2a2b2b33f85c";
     SendRoot := common.HexToHash "0x73e3fd5339538bb97fb2ab3f1affc7971c8ea591c1f324e22cbc5b4d01b7b4ee" |});
  (4083754, {| Batch := 9178; PosInBatch := 657;
     BlockHash := common.HexToHash "0x8d585dbf517707d88c8816df4d3edb853622415bb8f44f6f34a6c788b0eac35c";
     SendRoot := common.HexToHash "0x73e3fd5339538bb97fb2ab3f1affc7971c8ea591c1f324e22cbc5b4d01b7b4ee" |});
  (4083755, {| Batch := 9178; PosInBatch := 658;
     BlockHash := common.HexToHash "0x409ecf21a914f4341a6ba9ac3ef728a3f45dc028b35df738f2ecdc95a95165c2";
     SendRoot := common.HexToHash "0x73e3fd5339538bb97fb2ab3f1affc7971c8ea591c1f324e22cbc5b4d01b7b4ee" |});
  (4083756, {| Batch := 9178; PosInBatch := 659;
     BlockHash := common.HexToHash "0x8e23132551a67624d98faacf012074c946560a0be1e2a9648084b2524e411b84";
     SendRoot := common.HexToHash "0x73e3fd5339538bb97fb2ab3f1affc7971c8ea591c1f324e22cbc5b4d01b7b4ee" |});
  (4083757, {| Batch := 9179; PosInBatch := 0;
     BlockHash := common.HexToHash "0xa4b18acb1e38e1389ad2cebdf01451ce9eee86fa3bb35589d31d93b6bff8b648";
     SendRoot := common.HexToHash "0x73e3fd5339538bb97fb2ab3f1affc7971c8ea591c1f324e22cbc5b4d01b7b4ee" |});
  (4083758, {| Batch := 9179; PosInBatch := 1;
     BlockHash := common.HexToHash "0x49660151be5e75586f749f5010deaa20a4c20e4a309506dc9e0a90cfa6438ec2";
     SendRoot := common.HexToHash "0x73e3fd5339538bb97fb2ab3f1affc7971c8ea591c1f324e22cbc5b4d01b7b4ee" |});
  (4083759, {| Batch := 9179; PosInBatch := 2;
     BlockHash := common.HexToHash "0xea193dbd15a4ade4af250013d19de411baf8aae540b984a12eaad3480f50768c";
     SendRoot := common.HexToHash "0x73e3fd5339538bb97fb2ab3f1affc7971c8ea591c1f324e22cbc5b4d01b7b4ee" |});
  (4083760, {| Batch := 9179; PosInBatch := 3;
     BlockHash := common.HexToHash "0xd22410f061d9e522c1c6dc4cef724d40d1484eb02c49c63a1ce03d1c2a67e66e";
     SendRoot := common.HexToHash "0x73e3fd5339538bb97fb2ab3f1affc7971c8ea591c1f324e22cbc5b4d01b7b4ee" |});
  (4083761, {| Batch := 9179; PosInBatch := 4;
     BlockHash := common.HexToHash "0x9d5c886c9706885875afdf3902e09d12201f139232e662e165f43fb1c0d61b5a";
     SendRoot := common.HexToHash "0x73e3fd5339538bb97fb2ab3f1affc7971c8ea591c1f324e22cbc5b4d01b7b4ee" |});
  (4083762, {| Batch := 9179; PosInBatch := 5;
     BlockHash := common.HexToHash "0x04820347686c578d80495b56e53267ee3d0cade3a03d4a1d9a15ee001ca4dca7";
     SendRoot := common.HexToHash "0x73e3fd5339538bb97fb2ab3f1affc7971c8ea591c1f324e22cbc5b4d01b7b4ee" |});
  (4083763, {| Batch := 9179; PosInBatch := 6;
     BlockHash := common.HexToHash "0xd7ca7bef74fe43f2d7e6d1845c91cfa98c1a0025191ac631c6dcf0b1b05d31ff";
     SendRoot := common.HexToHash "0x73e3fd5339538bb97fb2ab3f1affc7971c8ea591c1f324e22cbc5b4d01b7b4ee" |});
  (4083764, {| Batch := 9179; PosInBatch := 7;
     BlockHash := common.HexToHash "0x2fe06217c0dbd14cde1b5c9c28985e2106a70c7d2f28e2ad1e9b6336156353ee";
     SendRoot := common.HexToHash "0x73e3fd5339538bb97fb2ab3f1affc7971c8ea591c1f324e22cbc5b4d01b7b4ee" |});
  (4083765, {| Batch := 9179; PosInBatch := 8;
     BlockHash := common.HexToHash "0xc3a64bd8a09d277f06c0a5b5156c944554ed93ee8d9419e1593a39e0c9c31c65";
     SendRoot := common.HexToHash "0x73e3fd5339538bb97fb2ab3f1affc7971c8ea591c1f324e22cbc5b4d01b7b4ee" |});
  (4083766, {| Batch := 9179; PosInBatch := 9;
     BlockHash := common.HexToHash "0x98bff06722a2faeea3d9f4a5b87d23b5d4e351a0a268911a978ccfe2ebaf7557";
     SendRoot := common.HexToHash "0x73e3fd5339538bb97fb2ab3f1affc7971c8ea591c1f324e22cbc5b4d01b7b4ee" |});
  (4083767, {| Batch := 9179; PosInBatch := 10;
     BlockHash := common.HexToHash "0x41964b2279530661f093695836c814797d1b057fc5bc50c1eb2fecd7748891e4";
     SendRoot := common.HexToHash "0x73e3fd5339538bb97fb2ab3f1affc7971c8ea591c1f324e22cbc5b4d01b7b4ee" |});
  (4083768, {| Batch := 9179; PosInBatch := 11;
     BlockHash := common.HexToHash "0xcc7906a405cbe757fe18a4b706b31b5de10272b6164dfd4a71c4cf04586a1965";
     SendRoot := common.HexToHash "0x73e3fd5339538bb97fb2ab3f1affc7971c8ea591c1f324e22cbc5b4d01b7b4ee" |});
  (4083769, {| Batch := 9179; PosInBatch := 12;
     BlockHash := common.HexToHash "0x473e99644243e72a1b24643aa511d155141e3b0fa91fcb2538da50ea9221f029";
     SendRoot := common.HexToHash "0x73e3fd5339538bb97fb2ab3f1affc7971c8ea591c1f324e22cbc5b4d01b7b4ee" |});
  (4083770, {| Batch := 9179; PosInBatch := 13;
     BlockHash := common.HexToHash "0xd010b7dc2f71266d76762ff9c75e179465f99e60766323ad150a42d71d2f0fc1";
     SendRoot := common.HexToHash "0x73e3fd5339538bb97fb2ab3f1affc7971c8ea591c1f324e22cbc5b4d01b7b4ee" |});
  (4083771, {| Batch := 9179; PosInBatch := 14;
     BlockHash := common.HexToHash "0x8be5ec7d772181e086cccbf18c0619b9332b5291248d8940380e9e4a5a4775c9";
     SendRoot := common.HexToHash "0x73e3fd5339538bb97fb2ab3f1affc7971c8ea591c1f324e22cbc5b4d01b7b4ee" |});
  (4083772, {| Batch := 9179; PosInBatch := 15;
     BlockHash := common.HexToHash "0x48d13f72a3af6a6e7377be4f46059d9d3648a32273d942977033bf95f34d97aa";
     SendRoot := common.HexToHash "0x73e3fd5339538bb97fb2ab3f1affc7971c8ea591c1f324e22cbc5b4d01b7b4ee" |});
  (4083773, {| Batch := 9179; PosInBatch := 16;
     BlockHash := common.HexToHash "0x36007d81d2dd023743c3c6988840edd26297b363b9691f97e8779ad0e2c56dc2";
     SendRoot := common.HexToHash "0x73e3fd5339538bb97fb2ab3f1affc7971c8ea591c1f324e22cbc5b4d01b7b4ee" |});
  (4083774, {| Batch := 9179; PosInBatch := 17;
     BlockHash := common.HexToHash "0x2158c56d28237190bebaa93d5b514789d16986383d8834fa888d0efc29ca8dc7";
     SendRoot := common.HexToHash "0x73e3fd5339538bb97fb2ab3f1affc7971c8ea591c1f324e22cbc5b4d01b7b4ee" |});
  (4083775, {| Batch := 9179; PosInBatch := 18;
     BlockHash := common.HexToHash "0x873e66a3521d74e92ab638a6626eada0cfd0c95cff23bcd596e4529379128721";
     SendRoot := common.HexToHash "0x73e3fd5339538bb97fb2ab3f1affc7971c8ea591c1f324e22cbc5b4d01b7b4ee" |});
  (4083776, {| Batch := 9179; PosInBatch := 19;
     BlockHash := common.HexToHash "0x70d86d565fe2a388c59a4fa8c3f2667cc7f41b137f689e03e8ad06bd2ee865f2";
     SendRoot := common.HexToHash "0x73e3fd5339538bb97fb2ab3f1affc7971c8ea591c1f324e22cbc5b4d01b7b4ee" |});
  (4083777, {| Batch := 9179; PosInBatch := 20;
     BlockHash := common.HexToHash "0xc586b5b34836563a4c65c3cb801d5363e45301a1bad36b8c603e74b6de4859bc";
     SendRoot := common.HexToHash "0x73e3fd5339538bb97fb2ab3f1affc7971c8ea591c1f324e22cbc5b4d01b7b4ee" |});
  (4083778, {| Batch := 9179; PosInBatch := 21;
     BlockHash := common.HexToHash "0x2a107b42c03dff558bae068a877f215f57d72782bcaeba36e3a7d49425477e2a";
     SendRoot := common.HexToHash "0x73e3fd5339538bb97fb2ab3f1affc7971c8ea591c1f324e22cbc5b4d01b7b4ee" |});
  (4083779, {| Batch := 9179; PosInBatch := 22;
     BlockHash := common.HexToHash "0xab2fe94ad82ec7a2c18fef9ce5b08114ee332ccd4201663d9f514943ce503cd1";
     SendRoot := common.HexToHash "0x73e3fd5339538bb97fb2ab3f1affc7971c8ea591c1f324e22cbc5b4d01b7b4ee" |});
  (4083780, {| Batch := 9179; PosInBatch := 23;
     BlockHash := common.HexToHash "0xc0a14248fe4399503d2a85be30f40ef3f5e0d91fa35559a22cb043c87f275b4b";
     SendRoot := common.HexToHash "0x73e3fd5339538bb97fb2ab3f1affc7971c8ea591c1f324e22cbc5b4d01b7b4ee" |});
  (4083781, {| Batch := 9179; PosInBatch := 24;
     BlockHash := common.HexToHash "0xe19b0f611e545a630d4f1fcb90de59393bb62971578c7aae025e5843e9ac847c";
     SendRoot := common.HexToHash "0x73e3fd5339538bb97fb2ab3f1affc7971c8ea591c1f324e22cbc5b4d01b7b4ee" |});
  (4083782, {| Batch := 9179; PosInBatch := 25;
     BlockHash := common.HexToHash "0xe3da69cf80a6ffa9c9c6b92abc60484018a7b0892c9dd6c0ab3d7e8eb0528f9b";
     SendRoot := common.HexToHash "0x73e3fd5339538bb97fb2ab3f1affc7971c8ea591c1f324e22cbc5b4d01b7b4ee" |}) ].

Definition prove : ValidationInput -> World -> (GoGlobalState * option error) * World :=
  prove_with ignoreProveBlocks.

Definition prove_rev2 : ValidationInput -> World -> (GoGlobalState * option error) * World :=
  prove_with ignoreProveBlocks_rev2.

(** The bytes of the [conn.Write] calls of a trace, in order. *)
Definition connWritten (tr : list Event) : list byte :=
  concat (List.map (fun ev => match ev with ConnWrite data => data | _ => [] end) tr).

(** An environment in which no operation fails. *)
Definition faultless (w : World) : Prop := forall n, failures w n = None.

(** *** Vocabulary for the statements below *)

(** [emits order c evs]: in an environment without failures whose maps are
    walked in [order], [c] succeeds, performs exactly the operations [evs]
    and consumes none of the child's bytes. *)
Definition emits (order : MapOrder) (c : IO unit) (evs : list Event) : Prop :=
  forall w, faultless w -> mapOrder w = order ->
    c w = (inr tt, mkWorld (failures w) (listenerAddr w) (mapOrder w) (incoming w) (trace w ++ evs)).

(** The operations of the rendezvous. *)
Definition rendezvousEvents (w : World) : list Event :=
  [ ListenTCP; ListenerSetDeadline;
    StdinWrite (list_byte_of_string (listenerAddr w ++ String "010" EmptyString));
    Accept; ConnSetReadDeadline; ConnSetWriteDeadline ].

(** The frames that [sendRequest] writes for the batches, the delayed
    message and the preimages, the latter in the order [order] of the
    maps. *)
Definition batchEvents (batch : BatchInfo) : list Event :=
  [ ConnWrite another; ConnWrite (UintToBytes (Number batch));
    ConnWrite (UintToBytes (uint64 (len (Data batch)))); ConnWrite (Data batch) ].

Definition delayedEvents (entry : ValidationInput) : list Event :=
  if HasDelayedMsg entry then
    [ ConnWrite another; ConnWrite (UintToBytes (DelayedMsgNr entry));
      ConnWrite (UintToBytes (uint64 (len (DelayedMsg entry))));
      ConnWrite (DelayedMsg entry) ]
  else [].

Definition preimageEvents (kv : list byte * list byte) : list Event :=
  [ ConnWrite kv.1; ConnWrite (UintToBytes (uint64 (len kv.2))); ConnWrite kv.2 ].

Definition kindEvents (order : MapOrder) (kv : Z * gmap (list byte) (list byte))
    : list Event :=
  [ ConnWrite [byte.of_Z kv.1];
    ConnWrite (UintToBytes (uint64 (Z.of_nat (size kv.2)))) ]
  ++ concat (List.map preimageEvents (rangeOver (preimageRank order kv.1) kv.2)).

Definition requestEvents (order : MapOrder) (entry : ValidationInput) : list Event :=
  [ ConnWrite (UintToBytes (Batch (StartState entry)));
    ConnWrite (UintToBytes (PosInBatch (StartState entry)));
    ConnWrite (BlockHash (StartState entry));
    ConnWrite (SendRoot (StartState entry)) ]
  ++ concat (List.map batchEvents (BatchInfos entry))
  ++ [ConnWrite success]
  ++ delayedEvents entry
  ++ [ConnWrite success]
  ++ [ConnWrite (UintToBytes (uint64 (Z.of_nat (size (Preimages entry)))))]
  ++ concat (List.map (kindEvents order)
               (rangeOver (kindRank order) (Preimages entry)))
  ++ [ConnWrite ready].

(** The start state block: the first 80 bytes of a request. *)
Definition startStateBlock (s : GoGlobalState) : list byte :=
  UintToBytes (Batch s) ++ UintToBytes (PosInBatch s) ++ BlockHash s ++ SendRoot s.

(** *** Scenarios of the specification *)

(** Scenario 5 of the specification: an empty request from the start state
    [{batch = 7, pos = 3, block_hash = 0xaa.., send_root = 0xbb..}], sent to a
    child that answers nothing. *)
Definition request5 : ValidationInput :=
  {| Id := 1;
     StartState := {| Batch := 7; PosInBatch := 3;
                      BlockHash := repeat Init.Byte.xaa 32;
                      SendRoot := repeat Init.Byte.xbb 32 |};
     BatchInfos := []; HasDelayedMsg := false;
     DelayedMsgNr := 0; DelayedMsg := [];
     Preimages := ∅ |}.

(** The ranking that ranks all keys alike. *)
Definition keyOrder : MapOrder := mkMapOrder (fun _ => 0%nat) (fun _ _ => 0%nat).

Definition world5 : World :=
  mkWorld (fun _ => None) "127.0.0.1:40000" keyOrder [] [].

(** Scenario 6 of the specification: the child answers [01], the length 12
    and the text [bad-preimage]. *)
Definition world6 : World :=
  mkWorld (fun _ => None) "127.0.0.1:40000" keyOrder
    (Init.Byte.x01 :: BigEndian_PutUint64 12 ++ list_byte_of_string "bad-preimage")
    [].

(** *** Vocabulary for further statements *)

(** The operations of a list, one after the other, up to the first one that
    fails. *)
Definition runScript (evs : list Event) : IO unit := forEach evs syscall.

(** [scripted order c evs]: in every environment whose maps are walked in
    [order], [c] is the attempt to perform the operations [evs] in order. *)
Definition scripted (order : MapOrder) (c : IO unit) (evs : list Event) : Prop :=
  forall w, mapOrder w = order -> c w = runScript evs w.

(** Everything that [prove] does before it reads the response, in the
    environment [w]. *)
Definition proveScript (entry : ValidationInput) (w : World) : list Event :=
  rendezvousEvents w ++ requestEvents (mapOrder w) entry.

Definition isConnRead (ev : Event) : Prop :=
  match ev with
  | ConnRead _ => True
  | _ => False
  end.

(** [onlyReads n w w']: from [w] to [w'], at most [n] operations were
    performed, all of them reads from the connection. *)
Definition onlyReads (n : nat) (w w' : World) : Prop :=
  exists reads,
    trace w' = trace w ++ reads /\ Forall isConnRead reads /\ (length reads <= n)%nat.

(** The bytes of one batch and of the delayed message on the wire. *)
Definition batchFrame (batch : BatchInfo) : list byte :=
  another ++ UintToBytes (Number batch)
  ++ UintToBytes (uint64 (len (Data batch))) ++ Data batch.

Definition delayedFrame (entry : ValidationInput) : list byte :=
  if HasDelayedMsg entry then
    another ++ UintToBytes (DelayedMsgNr entry)
    ++ UintToBytes (uint64 (len (DelayedMsg entry))) ++ DelayedMsg entry
  else [].

(** A state whose integers are [uint64] and whose hashes have 32 bytes. *)
Definition wellFormedState (s : GoGlobalState) : Prop :=
  0 <= Batch s < 2 ^ 64 /\ 0 <= PosInBatch s < 2 ^ 64 /\
  length (BlockHash s) = 32%nat /\ length (SendRoot s) = 32%nat.

(** A request with two batches and a delayed message, and an environment in
    which the operation number [n] fails. *)
Definition request7 : ValidationInput :=
  {| Id := 7;
     StartState := StartState request5;
     BatchInfos := [ {| Number := 1; Data := [Init.Byte.x0a; Init.Byte.x0b] |};
                     {| Number := 2; Data := [] |} ];
     HasDelayedMsg := true;
     DelayedMsgNr := 9; DelayedMsg := [Init.Byte.xff];
     Preimages := ∅ |}.

Definition failingWorld (n : nat) (answer : list byte) : World :=
  mkWorld (fun k => if (k =? n)%nat then Some (os_error "broken pipe") else None)
    "127.0.0.1:40000" keyOrder answer [].

(** A request with preimages of two kinds: two of kind 0, under the hashes
    [0x01..] and [0x02..], and one of kind 1, under the hash [0x03..]. *)
Definition request8 : ValidationInput :=
  {| Id := 8;
     StartState := StartState request5;
     BatchInfos := []; HasDelayedMsg := false;
     DelayedMsgNr := 0; DelayedMsg := [];
     Preimages :=
       {[ 0 := {[ repeat Init.Byte.x01 32 := [Init.Byte.x0a];
                  repeat Init.Byte.x02 32 := [Init.Byte.x0b; Init.Byte.x0c] ]};
          1 := {[ repeat Init.Byte.x03 32 := [] ]} ]} |}.

(** Two runs of the runtime: one walks the kinds upwards and the hashes by
    their first byte upwards, the other walks both downwards. *)
Definition upwards : MapOrder :=
  mkMapOrder (fun ty => Z.to_nat ty)
    (fun _ hash => Z.to_nat (byte.unsigned (hd Init.Byte.x00 hash))).

Definition downwards : MapOrder :=
  mkMapOrder (fun ty => Z.to_nat (255 - ty))
    (fun _ hash => Z.to_nat (255 - byte.unsigned (hd Init.Byte.x00 hash))).

(** An environment with the order [order] in which the operation number [n]
    fails and the child answers [answer]. *)
Definition failingWorldIn (order : MapOrder) (n : nat) (answer : list byte) : World :=
  mkWorld (fun k => if (k =? n)%nat then Some (os_error "broken pipe") else None)
    "127.0.0.1:40000" order answer [].

End server_jit.

(** ** The ArbOS storage abstraction *)

Module storage.

(** Modelled from the spec: package [storage] ([Storage] and [Queue]), which
    is not among the sources.  Section 6 gives its contract: a storage is a
    logical namespace of 32-byte slots addressed by a [uint64] offset, with a
    byte string of its own and named sub-storages; a queue is a FIFO of
    32-byte words that lives in a storage.  A namespace is identified by the
    path of sub-storage keys that leads to it, and the backing store maps
    paths to contents.  A slot that was never written reads as the zero
    word. *)
Record Backing := mkBacking {
  slots : gmap (list (list byte) * Z) (list byte);
  byteStrings : gmap (list (list byte)) (list byte);
  queues : gmap (list (list byte)) (list (list byte))
}.

(** A [*storage.Storage] and a [*storage.Queue] are handles on a namespace. *)
Abbreviation Storage := (list (list byte)).
Abbreviation Queue := (list (list byte)).

Definition emptyBacking : Backing := mkBacking ∅ ∅ ∅.

(** Modelled from the spec: [open_substorage(key)], the logical sub-namespace
    under [key]. *)
Definition OpenSubStorage (sto : Storage) (key : list byte) : Storage :=
  sto ++ [key].

(** Modelled from the spec: [get_slot_by_u64] and [set_slot_by_u64]. *)
Definition GetByUint64 (sto : Storage) (offset : Z) (b : Backing) : common.Hash :=
  default common.zeroHash (slots b !! (sto, offset)).

Definition SetByUint64 (sto : Storage) (offset : Z) (value : common.Hash)
    (b : Backing) : Backing :=
  mkBacking (<[(sto, offset) := value]> (slots b)) (byteStrings b) (queues b).

(** Modelled from the spec: [set_u64_by_u64].  Section 6: a slot that holds
    an integer is the 32-byte word with the integer's big-endian
    representation right-aligned. *)
Definition SetUint64ByUint64 (sto : Storage) (offset : Z) (value : Z)
    (b : Backing) : Backing :=
  SetByUint64 sto offset (common.BigToHash value) b.

(** Modelled from the spec: [write_bytes], [get_bytes], [get_bytes_size] and
    [delete_bytes] on the byte string of a storage. *)
Definition WriteBytes (sto : Storage) (data : list byte) (b : Backing) : Backing :=
  mkBacking (slots b) (<[sto := data]> (byteStrings b)) (queues b).

Definition GetBytes (sto : Storage) (b : Backing) : list byte :=
  default [] (byteStrings b !! sto).

Definition GetBytesSize (sto : Storage) (b : Backing) : Z :=
  uint64 (len (GetBytes sto b)).

Definition DeleteBytes (sto : Storage) (b : Backing) : Backing :=
  mkBacking (slots b) (delete sto (byteStrings b)) (queues b).

(** Modelled from the spec: the [Queue] of 32-byte words with [initialize],
    [is_empty], [get] and [put]; [queueContents] is the sequence it holds,
    head first. *)
Definition queueContents (q : Queue) (b : Backing) : list (list byte) :=
  default [] (queues b !! q).

Definition InitializeQueue (sto : Storage) (b : Backing) : Backing :=
  mkBacking (slots b) (byteStrings b) (<[sto := []]> (queues b)).

Definition OpenQueue (sto : Storage) : Queue := sto.

Definition IsEmpty (q : Queue) (b : Backing) : bool :=
  match queueContents q b with
  | [] => true
  | _ => false
  end.

(** Modelled from the spec: [get] removes the head and returns a pointer to
    it, [nil] for an empty queue; [put] appends at the tail. *)
Definition Get (q : Queue) (b : Backing) : option common.Hash * Backing :=
  match queueContents q b with
  | [] => (None, b)
  | x :: rest => (Some x, mkBacking (slots b) (byteStrings b) (<[q := rest]> (queues b)))
  end.

Definition Put (q : Queue) (value : common.Hash) (b : Backing) : Backing :=
  mkBacking (slots b) (byteStrings b)
    (<[q := queueContents q b ++ [value]]> (queues b)).

End storage.

(** ** Package [util] *)

Module util.

(** Modelled from the spec: [util.IntToHash], which is not among the sources,
    takes an [int64] to a storage word.  Section 6: the 32-byte word with the
    integer's big-endian representation right-aligned.  For a negative
    argument the word holds the magnitude: [common.BigToHash] takes the
    bytes of the [big.Int], which are those of its absolute value. *)
Definition IntToHash (val : Z) : common.Hash := common.BigToHash val.

End util.

(** ** Package [retryables] *)

Module retryables.
Import storage.

Definition RetryableLifetimeSeconds : Z := 7 * 24 * 60 * 60.

Record RetryableState := {
  retryables : Storage;
  timeoutQueue : Queue
}.

Definition timeoutQueueKey : list byte := [Init.Byte.x00].
Definition calldataKey : list byte := [Init.Byte.x01].

Definition InitializeRetryableState (sto : Storage) (b : Backing) : Backing :=
  InitializeQueue (OpenSubStorage sto timeoutQueueKey) b.

Definition OpenRetryableState (sto : Storage) : RetryableState :=
  {| retryables := sto;
     timeoutQueue := OpenQueue (OpenSubStorage sto timeoutQueueKey) |}.

(** A [*Retryable].  The pointer fields are caches, [nil] until the value is
    loaded from storage; [calldata] is a slice, [nil] likewise. *)
Record Retryable := mkRetryable {
  id : common.Hash;
  backingStorage : Storage;
  numTries : option Z;
  timeout : option Z;
  from : option common.Address;
  to : option common.Address;
  callvalue : option Z;
  beneficiary : option common.Address;
  calldata : option (list byte)
}.

Definition numTriesOffset : Z := 0.
Definition timeoutOffset : Z := 1.
Definition fromOffset : Z := 2.
Definition toOffset : Z := 3.
Definition callvalueOffset : Z := 4.
Definition beneficiaryOffset : Z := 5.

(** The bytes of a Go slice, empty for [nil]. *)
Definition sliceBytes (s : option (list byte)) : list byte := default [] s.

Definition OpenRetryable (rs : RetryableState) (id : common.Hash)
    (currentTimestamp : Z) (b : Backing) : option Retryable :=
  let sto := OpenSubStorage (retryables rs) id in
  if decide (GetByUint64 sto timeoutOffset b = common.zeroHash) then
    (* no retryable here (real retryable never has a zero timeout) *)
    None
  else
    Some (mkRetryable id sto None None None None None None None).

Definition TryToReapOneRetryable (rs : RetryableState) (currentTimestamp : Z)
    (b : Backing) : Backing :=
  if negb (IsEmpty (timeoutQueue rs) b) then
    match Get (timeoutQueue rs) b with
    | (Some id, b) =>
        match OpenRetryable rs id currentTimestamp b with
        | Some retryable =>
            (* OpenRetryable returned non-nil, so we know the retryable hasn't expired *)
            Put (timeoutQueue rs) id b
        | None => b
        end
    | (None, b) => b
    end
  else b.

(** [CreateRetryable].  [to] may be [nil], and [to.Bytes()] on a [nil]
    pointer is a run-time panic (the method has a value receiver): the call
    does not return then, the result is [None], and the writes made before
    the panic are not a state of the registry.  [callvalue] is a non-nil
    [*big.Int]. *)
Definition CreateRetryable (rs : RetryableState) (currentTimestamp : Z)
    (id : common.Hash) (timeout : Z) (from : common.Address)
    (to : option common.Address) (callvalue : Z)
    (beneficiary : common.Address) (calldata : option (list byte))
    (b : Backing) : option (Retryable * Backing) :=
  let b := TryToReapOneRetryable rs currentTimestamp b in
  let sto := OpenSubStorage (retryables rs) id in
  let seq := 0 in
  let ret := mkRetryable id sto (Some seq) (Some timeout) (Some from) to
               (Some callvalue) (Some beneficiary) calldata in
  let b := SetByUint64 sto numTriesOffset common.zeroHash b in
  let b := SetByUint64 sto timeoutOffset (util.IntToHash (int64 timeout)) b in
  let b := SetByUint64 sto fromOffset (common.BytesToHash from) b in
  match to with
  | None => None
  | Some toBytes =>
      let b := SetByUint64 sto toOffset (common.BytesToHash toBytes) b in
      let b := SetByUint64 sto callvalueOffset (common.BigToHash callvalue) b in
      let b := SetByUint64 sto beneficiaryOffset (common.BytesToHash beneficiary) b in
      let b := WriteBytes (OpenSubStorage sto calldataKey) (sliceBytes calldata) b in
      (* insert the new retryable into the queue so it can be reaped later *)
      let b := Put (timeoutQueue rs) id b in
      Some (ret, b)
  end.

Definition DeleteRetryable (rs : RetryableState) (id : common.Hash)
    (b : Backing) : bool * Backing :=
  let retStorage := OpenSubStorage (retryables rs) id in
  if decide (GetByUint64 retStorage timeoutOffset b = common.zeroHash) then
    (false, b)
  else
    let b := SetByUint64 retStorage numTriesOffset common.zeroHash b in
    let b := SetByUint64 retStorage timeoutOffset common.zeroHash b in
    let b := SetByUint64 retStorage fromOffset common.zeroHash b in
    let b := SetByUint64 retStorage toOffset common.zeroHash b in
    let b := SetByUint64 retStorage callvalueOffset common.zeroHash b in
    let b := SetByUint64 retStorage beneficiaryOffset common.zeroHash b in
    let b := DeleteBytes (OpenSubStorage retStorage calldataKey) b in
    (true, b).

(** *** The methods of a handle

    A getter fills the cache of its field; it returns the value and the
    handle as it is afterwards. *)

Definition NumTries (retryable : Retryable) (b : Backing) : Z * Retryable :=
  match numTries retryable with
  | Some n => (n, retryable)
  | None =>
      let n := common.Uint64 (common.Big (GetByUint64 (backingStorage retryable) numTriesOffset b)) in
      (n, mkRetryable (id retryable) (backingStorage retryable) (Some n)
            (timeout retryable) (from retryable) (to retryable)
            (callvalue retryable) (beneficiary retryable) (calldata retryable))
  end.

Definition SetNumTries (retryable : Retryable) (newNumTries : Z) (b : Backing)
    : Retryable * Backing :=
  (mkRetryable (id retryable) (backingStorage retryable) (Some newNumTries)
     (timeout retryable) (from retryable) (to retryable)
     (callvalue retryable) (beneficiary retryable) (calldata retryable),
   SetUint64ByUint64 (backingStorage retryable) numTriesOffset newNumTries b).

Definition IncrementNumTries (retryable : Retryable) (b : Backing)
    : Z * (Retryable * Backing) :=
  let '(n, retryable) := NumTries retryable b in
  let newNumTries := uint64 (n + 1) in
  (newNumTries, SetNumTries retryable newNumTries b).

Definition Beneficiary (retryable : Retryable) (b : Backing)
    : common.Address * Retryable :=
  match beneficiary retryable with
  | Some a => (a, retryable)
  | None =>
      let a := common.BytesToAddress (GetByUint64 (backingStorage retryable) beneficiaryOffset b) in
      (a, mkRetryable (id retryable) (backingStorage retryable) (numTries retryable)
            (timeout retryable) (from retryable) (to retryable)
            (callvalue retryable) (Some a) (calldata retryable))
  end.

Definition Timeout (retryable : Retryable) (b : Backing) : Z * Retryable :=
  match timeout retryable with
  | Some t => (t, retryable)
  | None =>
      let t := common.Uint64 (common.Big (GetByUint64 (backingStorage retryable) timeoutOffset b)) in
      (t, mkRetryable (id retryable) (backingStorage retryable) (numTries retryable)
            (Some t) (from retryable) (to retryable)
            (callvalue retryable) (beneficiary retryable) (calldata retryable))
  end.

Definition From (retryable : Retryable) (b : Backing)
    : common.Address * Retryable :=
  match from retryable with
  | Some a => (a, retryable)
  | None =>
      let a := common.BytesToAddress (GetByUint64 (backingStorage retryable) fromOffset b) in
      (a, mkRetryable (id retryable) (backingStorage retryable) (numTries retryable)
            (timeout retryable) (Some a) (to retryable)
            (callvalue retryable) (beneficiary retryable) (calldata retryable))
  end.

(** [To] returns the pointer field itself, after filling it when it is
    [nil]. *)
Definition To (retryable : Retryable) (b : Backing)
    : option common.Address * Retryable :=
  match to retryable with
  | Some a => (Some a, retryable)
  | None =>
      let a := common.BytesToAddress (GetByUint64 (backingStorage retryable) toOffset b) in
      (Some a, mkRetryable (id retryable) (backingStorage retryable) (numTries retryable)
                 (timeout retryable) (from retryable) (Some a)
                 (callvalue retryable) (beneficiary retryable) (calldata retryable))
  end.

Definition Callvalue (retryable : Retryable) (b : Backing) : Z * Retryable :=
  match callvalue retryable with
  | Some v => (v, retryable)
  | None =>
      let v := common.Big (GetByUint64 (backingStorage retryable) callvalueOffset b) in
      (v, mkRetryable (id retryable) (backingStorage retryable) (numTries retryable)
            (timeout retryable) (from retryable) (to retryable)
            (Some v) (beneficiary retryable) (calldata retryable))
  end.

Definition Calldata (retryable : Retryable) (b : Backing)
    : list byte * Retryable :=
  match calldata retryable with
  | Some d => (d, retryable)
  | None =>
      let d := GetBytes (OpenSubStorage (backingStorage retryable) calldataKey) b in
      (d, mkRetryable (id retryable) (backingStorage retryable) (numTries retryable)
            (timeout retryable) (from retryable) (to retryable)
            (callvalue retryable) (beneficiary retryable) (Some d))
  end.

(** efficiently gets size of calldata without loading all of it *)
Definition CalldataSize (retryable : Retryable) (b : Backing) : Z :=
  match calldata retryable with
  | None => GetBytesSize (OpenSubStorage (backingStorage retryable) calldataKey) b
  | Some d => uint64 (len d)
  end.

Definition SetTimeout (retryable : Retryable) (timeout' : Z) (b : Backing)
    : Retryable * Backing :=
  (mkRetryable (id retryable) (backingStorage retryable) (numTries retryable)
     (Some timeout') (from retryable) (to retryable)
     (callvalue retryable) (beneficiary retryable) (calldata retryable),
   SetByUint64 (backingStorage retryable) timeoutOffset
     (util.IntToHash (int64 timeout')) b).

Definition RetryableSizeBytes (rs : RetryableState) (id : common.Hash)
    (currentTime : Z) (b : Backing) : Z :=
  match OpenRetryable rs id currentTime b with
  | None => 0
  | Some retryable => uint64 (6 * 32 + CalldataSize retryable b)
  end.

Definition Keepalive (rs : RetryableState) (ticketId : common.Hash)
    (currentTimestamp limitBeforeAdd timeToAdd : Z) (b : Backing)
    : bool * Backing :=
  match OpenRetryable rs ticketId currentTimestamp b with
  | None => (false, b)
  | Some retryable =>
      let '(timeout, retryable) := Timeout retryable b in
      if timeout >? limitBeforeAdd then (false, b)
      else
        let '(_, b) := SetTimeout retryable (uint64 (timeout + timeToAdd)) b in
        (true, b)
  end.

(** [Equals] (for testing).  It returns its verdict and the two handles as
    the getters leave them. *)
Definition Equals (retryable other : Retryable) (b : Backing)
    : bool * (Retryable * Retryable) :=
  if negb (bool_decide (id retryable = id other)) then (false, (retryable, other))
  else
    let '(rt, retryable) := Timeout retryable b in
    let '(ot, other) := Timeout other b in
    if negb (rt =? ot) then (false, (retryable, other))
    else
      let '(rfrom, retryable) := From retryable b in
      let '(ofrom, other) := From other b in
      if negb (bool_decide (rfrom = ofrom)) then (false, (retryable, other))
      else
        let '(rto, retryable) := To retryable b in
        let '(oto, other) := To other b in
        let toDiffers :=
          match rto, oto with
          | None, None => false
          | None, Some _ => true
          | Some _, None => true
          | Some r, Some o => negb (bool_decide (r = o))
          end in
        if toDiffers then (false, (retryable, other))
        else
          let '(rv, retryable) := Callvalue retryable b in
          let '(ov, other) := Callvalue other b in
          if negb (rv =? ov) then (false, (retryable, other))
          else
            let '(rb, retryable) := Beneficiary retryable b in
            let '(ob, other) := Beneficiary other b in
            if negb (bool_decide (rb = ob)) then (false, (retryable, other))
            else
              let '(rd, retryable) := Calldata retryable b in
              let '(od, other) := Calldata other b in
              (bool_decide (rd = od), (retryable, other)).

Section TxId.

(** [crypto.Keccak256] of go-ethereum, on one byte string. *)
Variable keccak256 : list byte -> common.Hash.

(** [crypto.Keccak256Hash(data ...[]byte)] feeds its arguments to the sponge
    one after the other. *)
Definition Keccak256Hash (data : list (list byte)) : common.Hash :=
  keccak256 (concat data).

Definition TxIdForRedeemAttempt (ticketId : common.Hash) (trySequenceNum : Z)
    : common.Hash :=
  (* zero byte is included to prevent collision with a txId used by the
     Arbitrum Classic retryables API *)
  let asBytes := LittleEndian_PutUint64 trySequenceNum in
  Keccak256Hash [ticketId; [Init.Byte.x00]; asBytes].

End TxId.

(** *** Vocabulary for the statements below *)

(** The storage of the retryable with ticket [id]. *)
Definition storageOf (rs : RetryableState) (id : common.Hash) : Storage :=
  OpenSubStorage (retryables rs) id.

(** The timeout slot of a ticket, and the timeout that a fresh handle reads
    from it. *)
Definition timeoutSlot (rs : RetryableState) (id : common.Hash) (b : Backing)
    : common.Hash :=
  GetByUint64 (storageOf rs id) timeoutOffset b.

Definition storedTimeout (rs : RetryableState) (id : common.Hash) (b : Backing) : Z :=
  common.Uint64 (common.Big (timeoutSlot rs id b)).

(** A retryable is live when its timeout slot is not the zero word. *)
Definition live (rs : RetryableState) (id : common.Hash) (b : Backing) : Prop :=
  timeoutSlot rs id b <> common.zeroHash.

(** The ticket ids in the timeout queue, head first. *)
Definition timeoutQueueOf (rs : RetryableState) (b : Backing) : list common.Hash :=
  queueContents (timeoutQueue rs) b.

(** Every live retryable has its ticket id in the timeout queue. *)
Definition queue_invariant (rs : RetryableState) (b : Backing) : Prop :=
  forall id, live rs id b -> id ∈ timeoutQueueOf rs b.

(** A handle of the registry [rs]: its storage is that of its ticket. *)
Definition handleOf (rs : RetryableState) (retryable : Retryable) : Prop :=
  backingStorage retryable = storageOf rs (id retryable).

(** One operation of the registry, as a transition of the backing store.
    [OpenRetryable] and [RetryableSizeBytes] only read. *)
Inductive step (rs : RetryableState) : Backing -> Backing -> Prop :=
| step_CreateRetryable now id timeout from to callvalue beneficiary calldata b ret b' :
    CreateRetryable rs now id timeout from to callvalue beneficiary calldata b
      = Some (ret, b') ->
    step rs b b'
| step_OpenRetryable id now b ret :
    OpenRetryable rs id now b = ret ->
    step rs b b
| step_DeleteRetryable id b :
    step rs b (DeleteRetryable rs id b).2
| step_Keepalive ticketId now limitBeforeAdd timeToAdd b :
    step rs b (Keepalive rs ticketId now limitBeforeAdd timeToAdd b).2
| step_RetryableSizeBytes id now b n :
    RetryableSizeBytes rs id now b = n ->
    step rs b b
| step_TryToReapOneRetryable now b :
    step rs b (TryToReapOneRetryable rs now b)
| step_IncrementNumTries retryable b :
    step rs b (IncrementNumTries retryable b).2.2.

(** The states of the registry rooted at [sto]: it is initialised on a store
    in which no retryable is live, and then operated. *)
Definition reachable (sto : Storage) (b : Backing) : Prop :=
  exists b0,
    (forall id, ~ live (OpenRetryableState sto) id b0) /\
    rtc (step (OpenRetryableState sto)) (InitializeRetryableState sto b0) b.

(** *** Scenarios of the specification *)

(** A registry at the root of an empty store, the ticket [0x11..11] and three
    addresses. *)
Definition registry : RetryableState := OpenRetryableState [].
Definition store0 : Backing := InitializeRetryableState [] emptyBacking.
Definition ticket1 : common.Hash := repeat Init.Byte.x11 32.
Definition alice : common.Address := repeat Init.Byte.xa1 20.
Definition bob : common.Address := repeat Init.Byte.xb0 20.
Definition carol : common.Address := repeat Init.Byte.xc2 20.

(** The store after the ticket was created with the given timeout and
    calldata. *)
Definition storeWith (timeout : Z) (calldata : list byte) : Backing :=
  match CreateRetryable registry 500 ticket1 timeout alice (Some bob) 0 carol
          (Some calldata) store0 with
  | Some (_, b) => b
  | None => store0
  end.

(** *** Vocabulary for further statements *)

(** What the store holds for a ticket: its six slots, in the order of the
    offsets, and its calldata. *)
Definition ticketView (rs : RetryableState) (id : common.Hash) (b : Backing)
    : list common.Hash * list byte :=
  (List.map (fun offset => GetByUint64 (storageOf rs id) offset b)
     [numTriesOffset; timeoutOffset; fromOffset; toOffset; callvalueOffset;
      beneficiaryOffset],
   GetBytes (OpenSubStorage (storageOf rs id) calldataKey) b).

(** The number of tries that a fresh handle reads. *)
Definition storedNumTries (rs : RetryableState) (id : common.Hash) (b : Backing) : Z :=
  common.Uint64 (common.Big (GetByUint64 (storageOf rs id) numTriesOffset b)).

(** Liveness can be tested. *)
Definition isLive (rs : RetryableState) (b : Backing) (id : common.Hash) : bool :=
  bool_decide (timeoutSlot rs id b <> common.zeroHash).

(** As many reaping steps as the timeout queue has entries. *)
Definition sweep (rs : RetryableState) (currentTimestamp : Z) (b : Backing) : Backing :=
  Nat.iter (length (timeoutQueueOf rs b)) (TryToReapOneRetryable rs currentTimestamp) b.

(** One redeem attempt as the registry's users make it: open the ticket and
    count the try. *)
Definition countTry (rs : RetryableState) (id : common.Hash) (b : Backing) : Backing :=
  match OpenRetryable rs id 0 b with
  | Some retryable => (IncrementNumTries retryable b).2.2
  | None => b
  end.

(** A handle that has loaded nothing yet. *)
Definition freshHandle (rs : RetryableState) (id : common.Hash) : Retryable :=
  mkRetryable id (storageOf rs id) None None None None None None None.

(** What the getters of a handle return, id first. *)
Definition reads (retryable : Retryable) (b : Backing)
    : common.Hash * Z * common.Address * option common.Address * Z
      * common.Address * list byte :=
  (id retryable, (Timeout retryable b).1, (From retryable b).1,
   (To retryable b).1, (Callvalue retryable b).1, (Beneficiary retryable b).1,
   (Calldata retryable b).1).

End retryables.

(** ** Properties of the JIT validation host *)

Module server_jit_facts.
Import server_jit.
Local Open Scope io_scope.

(** *** The order of a [range] loop over a map *)

Lemma insertByRank_Permutation {K V} (rank : K -> nat) (kv : K * V) l :
  insertByRank rank kv l ≡ₚ kv :: l.
Proof.
  induction l as [|kv' l IH]; cbn; [reflexivity|].
  destruct (_ <=? _)%nat; [reflexivity|].
  etrans; [apply Permutation_skip, IH | apply Permutation_swap].
Qed.

(** Whatever the ranking, a loop visits every entry of the map, each one
    once. *)
Lemma rangeOver_Permutation {K V} `{Countable K} (rank : K -> nat) (m : gmap K V) :
  rangeOver rank m ≡ₚ map_to_list m.
Proof.
  unfold rangeOver. induction (map_to_list m) as [|kv l IH]; cbn; [reflexivity|].
  etrans; [apply insertByRank_Permutation | apply Permutation_skip, IH].
Qed.

Lemma rangeOver_empty {K V} `{Countable K} (rank : K -> nat) :
  rangeOver rank (∅ : gmap K V) = [].
Proof. unfold rangeOver. now rewrite map_to_list_empty. Qed.

Lemma insertByRank_middle {K V} (rank : K -> nat) (kv : K * V) l1 l2 :
  Forall (fun kv' => rank kv'.1 < rank kv.1)%nat l1 ->
  Forall (fun kv' => rank kv.1 < rank kv'.1)%nat l2 ->
  insertByRank rank kv (l1 ++ l2) = l1 ++ kv :: l2.
Proof.
  intros H1 H2. induction H1 as [|kv' l1 Hlt _ IH]; cbn.
  - destruct H2 as [|kv' l2 Hlt _]; cbn; [reflexivity|].
    now replace (_ <=? _)%nat with true by (symmetry; apply Nat.leb_le; lia).
  - replace (_ <=? _)%nat with false by (symmetry; apply Nat.leb_gt; lia).
    now rewrite IH.
Qed.

Lemma ascending_split {K V} (rank : K -> nat) (l1 : list (K * V)) kv l2 :
  ascending rank (l1 ++ kv :: l2) ->
  Forall (fun kv' => rank kv'.1 < rank kv.1)%nat l1 /\
  Forall (fun kv' => rank kv.1 < rank kv'.1)%nat l2 /\
  ascending rank (l1 ++ l2).
Proof.
  induction l1 as [|a l1 IH]; cbn; intros [Hall Hs]; [auto|].
  destruct (IH Hs) as (H1 & H2 & H3).
  apply Forall_app in Hall as [Ha1 Ha2]. apply Forall_cons in Ha2 as [Hakv Ha2].
  repeat split; auto. apply Forall_app; auto.
Qed.

Lemma ascending_ext {K V} (rank rank' : K -> nat) (l : list (K * V)) :
  (forall a b, a ∈ l -> b ∈ l ->
     (rank a.1 < rank b.1)%nat -> (rank' a.1 < rank' b.1)%nat) ->
  ascending rank l -> ascending rank' l.
Proof.
  induction l as [|kv l IH]; cbn; [auto|]. intros Hext [Hall Hs]. split.
  - apply Forall_forall. intros b Hb. apply Hext; [set_solver|set_solver|].
    eapply Forall_forall in Hall; eauto.
  - apply IH; [|exact Hs]. intros a b Ha Hb. apply Hext; set_solver.
Qed.

(** A stable sort leaves a strictly ascending arrangement as it is, from
    whatever arrangement of its entries the sort starts. *)
Lemma sort_ascending {K V} (rank : K -> nat) (l l' : list (K * V)) :
  ascending rank l -> l' ≡ₚ l -> foldr (insertByRank rank) [] l' = l.
Proof.
  revert l. induction l' as [|kv l' IH]; intros l Hl Hperm.
  - apply Permutation_nil_l in Hperm. now subst.
  - cbn. assert (Hin : kv ∈ l) by (rewrite <- Hperm; apply list_elem_of_here).
    apply list_elem_of_split in Hin as (l1 & l2 & ->).
    apply Permutation_cons_app_inv in Hperm.
    apply ascending_split in Hl as (H1 & H2 & H3).
    rewrite (IH (l1 ++ l2) H3 Hperm). now apply insertByRank_middle.
Qed.

Lemma ascending_position {K V} `{EqDecision K} (l : list (K * V)) :
  NoDup l.*1 -> ascending (position l.*1) l.
Proof.
  induction l as [|kv l IH]; cbn; [auto|]. intros Hnd.
  apply NoDup_cons in Hnd as [Hkv Hnd]. split.
  - apply Forall_forall. intros b Hb. cbn.
    destruct (decide (kv.1 = kv.1)); [|contradiction].
    destruct (decide (b.1 = kv.1)) as [E|]; [|lia].
    exfalso. apply Hkv. rewrite <- E. now apply list_elem_of_fmap_2.
  - apply (ascending_ext (position l.*1)); [|now apply IH].
    intros a b Ha Hb Hlt.
    destruct (decide (a.1 = kv.1)) as [E|];
      [exfalso; apply Hkv; rewrite <- E; now apply list_elem_of_fmap_2|].
    destruct (decide (b.1 = kv.1)) as [E|];
      [exfalso; apply Hkv; rewrite <- E; now apply list_elem_of_fmap_2|].
    lia.
Qed.

(** Every arrangement of the entries of a map is the order of some ranking:
    the model leaves out none of the orders that Go may take. *)
Lemma rangeOver_complete {K V} `{Countable K} (m : gmap K V) (l : list (K * V)) :
  l ≡ₚ map_to_list m ->
  rangeOver (position l.*1) m = l.
Proof.
  intros Hperm. unfold rangeOver. apply sort_ascending; [|now symmetry].
  apply ascending_position. rewrite Hperm. apply NoDup_fst_map_to_list.
Qed.

(** *** Computations that cannot fail *)

Lemma emits_syscall {order} ev : emits order (syscall ev) [ev].
Proof. intros w Hw _. unfold syscall. now rewrite Hw. Qed.

Lemma emits_ret {order} : emits order (ret tt) [].
Proof. intros [f a o i t] _ _. unfold ret. cbn. now rewrite app_nil_r. Qed.

Lemma emits_bind {order} c k e1 e2 :
  emits order c e1 -> emits order k e2 -> emits order (c ;; k) (e1 ++ e2).
Proof.
  intros Hc Hk w Hw Ho. unfold bind. rewrite (Hc w Hw Ho).
  rewrite Hk by (exact Hw || exact Ho). cbn. now rewrite app_assoc.
Qed.

Lemma run_emits {B} c (k : unit -> IO B) e w :
  emits (mapOrder w) c e -> faultless w ->
  bind c k w =
    k tt (mkWorld (failures w) (listenerAddr w) (mapOrder w) (incoming w) (trace w ++ e)).
Proof. intros Hc Hw. unfold bind. now rewrite (Hc w Hw eq_refl). Qed.

Lemma emits_forEach {order A} (xs : list A) body evs :
  (forall x, emits order (body x) (evs x)) ->
  emits order (forEach xs body) (concat (List.map evs xs)).
Proof.
  intros Hbody. induction xs as [|x xs IH]; cbn.
  - apply emits_ret.
  - apply emits_bind; [apply Hbody | apply IH].
Qed.

Lemma emits_rangeMap {order K V} `{Countable K} rank (m : gmap K V) body evs :
  (forall x, emits order (body x) (evs x)) ->
  emits order (rangeMap rank m body)
    (concat (List.map evs (rangeOver (rank order) m))).
Proof.
  intros Hbody w Hw Ho. unfold rangeMap. subst order.
  now apply (emits_forEach (order := mapOrder w)).
Qed.

Lemma emits_writeExact {order} data : emits order (writeExact data) [ConnWrite data].
Proof. apply emits_syscall. Qed.

Lemma emits_writeBytes {order} data :
  emits order (writeBytes data)
    [ConnWrite (UintToBytes (uint64 (len data))); ConnWrite data].
Proof. apply (emits_bind _ _ [_] [_]); apply emits_writeExact. Qed.

Lemma rendezvous_ok w :
  faultless w ->
  rendezvous w =
    (inr tt, mkWorld (failures w) (listenerAddr w) (mapOrder w) (incoming w)
               (trace w ++ rendezvousEvents w)).
Proof.
  intros Hw. unfold rendezvous.
  do 2 (rewrite (run_emits _ _ [_]) by (apply emits_syscall || exact Hw)).
  unfold bind at 1, formatAddress. cbn [listenerAddr].
  do 3 (rewrite (run_emits _ _ [_]) by (apply emits_syscall || exact Hw)).
  rewrite (emits_syscall (order := mapOrder w) _ _) by (exact Hw || reflexivity).
  cbn. rewrite <- !app_assoc. reflexivity.
Qed.

Ltac emit_write := apply (emits_bind _ _ [_]); [apply emits_writeExact|].

Lemma emits_sendRequest order entry :
  emits order (sendRequest entry) (requestEvents order entry).
Proof.
  unfold sendRequest, requestEvents.
  do 4 emit_write.
  apply emits_bind.
  { apply emits_forEach. intros batch. unfold batchEvents.
    do 2 emit_write. apply emits_writeBytes. }
  emit_write.
  apply emits_bind.
  { unfold delayedEvents. destruct (HasDelayedMsg entry); [|apply emits_ret].
    do 2 emit_write. apply emits_writeBytes. }
  do 2 emit_write.
  apply emits_bind; [|apply emits_writeExact].
  apply (emits_rangeMap kindRank). intros [ty preimages]. unfold kindEvents.
  do 2 emit_write.
  apply (emits_rangeMap (fun o => preimageRank o ty)).
  intros [hash preimage]. unfold preimageEvents.
  emit_write. apply emits_writeBytes.
Qed.

Lemma prove_faultless ignoreList entry w :
  ignoreList !! Id entry = None ->
  faultless w ->
  prove_with ignoreList entry w =
    readResponse (mkWorld (failures w) (listenerAddr w) (mapOrder w) (incoming w)
                    (trace w ++ rendezvousEvents w
                     ++ requestEvents (mapOrder w) entry)).
Proof.
  intros Hid Hw. unfold prove_with. rewrite Hid.
  unfold bind. rewrite rendezvous_ok by exact Hw.
  rewrite (emits_sendRequest (mapOrder w)) by (exact Hw || reflexivity).
  cbn [trace failures listenerAddr mapOrder incoming].
  now rewrite <- app_assoc.
Qed.

(** *** What was written to the connection *)

Lemma connWritten_app tr1 tr2 :
  connWritten (tr1 ++ tr2) = connWritten tr1 ++ connWritten tr2.
Proof. unfold connWritten. now rewrite List.map_app, concat_app. Qed.

Lemma read_written count w :
  connWritten (trace (read count w).2) = connWritten (trace w).
Proof.
  unfold read. destruct (count =? 0); [reflexivity|].
  assert (E : connWritten (trace (record (ConnRead count) w)) = connWritten (trace w)).
  { unfold record. cbn [trace]. rewrite connWritten_app. apply app_nil_r. }
  destruct (failures w _); [exact E|].
  destruct (_ <=? _)%nat; exact E.
Qed.

Lemma readUint64_written w :
  connWritten (trace (readUint64 w).2) = connWritten (trace w).
Proof.
  unfold readUint64, bind. pose proof (read_written 8 w) as E.
  destruct (read 8 w) as [[err|slice] w']; exact E.
Qed.

Lemma readHash_written w :
  connWritten (trace (readHash w).2) = connWritten (trace w).
Proof.
  unfold readHash, bind. pose proof (read_written 32 w) as E.
  destruct (read 32 w) as [[err|slice] w']; exact E.
Qed.

Lemma readResponse_written w :
  connWritten (trace (readResponse w).2) = connWritten (trace w).
Proof.
  unfold readResponse.
  pose proof (read_written 1 w) as E1.
  destruct (read 1 w) as [[err|kind] w1]; cbn [snd] in *; [exact E1|].
  rewrite <- E1. clear E1.
  destruct (decide _).
  - pose proof (readUint64_written w1) as E2.
    destruct (readUint64 w1) as [[err|length] w2]; cbn [snd] in *; [exact E2|].
    rewrite <- E2.
    pose proof (read_written length w2) as E3.
    destruct (read length w2) as [[err|message] w3]; exact E3.
  - destruct (decide _); [|reflexivity].
    pose proof (readUint64_written w1) as E2.
    destruct (readUint64 w1) as [[err|batch] w2]; cbn [snd] in *; [exact E2|].
    rewrite <- E2.
    pose proof (readUint64_written w2) as E3.
    destruct (readUint64 w2) as [[err|pos] w3]; cbn [snd] in *; [exact E3|].
    rewrite <- E3.
    pose proof (readHash_written w3) as E4.
    destruct (readHash w3) as [[err|blockHash] w4]; cbn [snd] in *; [exact E4|].
    rewrite <- E4.
    pose proof (readHash_written w4) as E5.
    destruct (readHash w4) as [[err|sendRoot] w5]; exact E5.
Qed.

(** What a fault-free [prove] call writes to the connection, for every
    request that is not short-circuited. *)
Lemma prove_written ignoreList entry w :
  ignoreList !! Id entry = None ->
  faultless w ->
  connWritten (trace (prove_with ignoreList entry w).2) =
    connWritten (trace w) ++ connWritten (requestEvents (mapOrder w) entry).
Proof.
  intros Hid Hw. rewrite prove_faultless by assumption.
  rewrite readResponse_written. cbn [trace].
  now rewrite !connWritten_app.
Qed.

(** *** Reading the response *)

(** [binary.BigEndian.Uint64] computes the big-endian value of its eight
    bytes. *)
Lemma BigEndian_Uint64_be (b : list byte) :
  length b = 8%nat -> BigEndian_Uint64 b = be_combine b.
Proof.
  intros Hlen.
  do 8 (destruct b as [|? b]; [discriminate|]).
  destruct b; [|discriminate].
  unfold BigEndian_Uint64, be_combine. cbn [rev app]. unfold le_combine.
  rewrite Z.shiftl_0_l, Z.lor_0_r.
  rewrite !Z.shiftl_lor, !Z.shiftl_shiftl by lia.
  reflexivity.
Qed.

Lemma setBytes_exact n (b : list byte) :
  length b = n -> common.setBytes n b = b.
Proof.
  intros <-. unfold common.setBytes.
  now rewrite Nat.sub_diag, drop_0, Nat.sub_diag.
Qed.

(** A read of as many bytes as the child has sent succeeds and returns
    them. *)
Lemma read_ok (bs rest : list byte) w :
  faultless w ->
  incoming w = bs ++ rest ->
  exists tr,
    read (len bs) w =
      (inr bs, mkWorld (failures w) (listenerAddr w) (mapOrder w) rest tr).
Proof.
  intros Hw Hin. unfold read, len.
  destruct (Z.of_nat (length bs) =? 0) eqn:E0.
  - apply Z.eqb_eq in E0. destruct bs; [|cbn in E0; lia].
    exists (trace w). destruct w; cbn in *. now subst.
  - rewrite Hw, Nat2Z.id, Hin, length_app.
    replace (length bs <=? length bs + length rest)%nat with true
      by (symmetry; apply Nat.leb_le; lia).
    rewrite take_app_length, drop_app_length. eauto.
Qed.

Lemma readUint64_ok (bs rest : list byte) w :
  faultless w ->
  length bs = 8%nat ->
  incoming w = bs ++ rest ->
  exists tr,
    readUint64 w =
      (inr (be_combine bs), mkWorld (failures w) (listenerAddr w) (mapOrder w) rest tr).
Proof.
  intros Hw Hlen Hin. unfold readUint64, bind.
  destruct (read_ok bs rest w Hw Hin) as [tr E].
  unfold len in E. rewrite Hlen in E. change (Z.of_nat 8) with 8 in E.
  rewrite E. unfold ret. rewrite BigEndian_Uint64_be by exact Hlen. eauto.
Qed.

Lemma readHash_ok (bs rest : list byte) w :
  faultless w ->
  length bs = 32%nat ->
  incoming w = bs ++ rest ->
  exists tr,
    readHash w = (inr bs, mkWorld (failures w) (listenerAddr w) (mapOrder w) rest tr).
Proof.
  intros Hw Hlen Hin. unfold readHash, bind.
  destruct (read_ok bs rest w Hw Hin) as [tr E].
  unfold len in E. rewrite Hlen in E. change (Z.of_nat 32) with 32 in E.
  rewrite E. unfold ret, common.BytesToHash.
  rewrite setBytes_exact by exact Hlen. eauto.
Qed.

Lemma readResponse_success w (batch pos blockHash sendRoot rest : list byte) :
  faultless w ->
  length batch = 8%nat -> length pos = 8%nat ->
  length blockHash = 32%nat -> length sendRoot = 32%nat ->
  incoming w = successByte :: batch ++ pos ++ blockHash ++ sendRoot ++ rest ->
  (readResponse w).1 =
    ({| Batch := be_combine batch; PosInBatch := be_combine pos;
        BlockHash := blockHash; SendRoot := sendRoot |}, None).
Proof.
  intros Hw Hb Hp Hh Hs Hin. unfold readResponse.
  destruct (read_ok [successByte] _ w Hw Hin) as [tr1 E1].
  change (len [successByte]) with 1 in E1. rewrite E1. clear E1.
  cbn [hd]. destruct (decide (successByte = failureByte)); [discriminate|].
  destruct (decide (successByte = successByte)); [|congruence].
  edestruct (readUint64_ok batch) as [tr2 ->]; [exact Hw|exact Hb|reflexivity|].
  edestruct (readUint64_ok pos) as [tr3 ->]; [exact Hw|exact Hp|reflexivity|].
  edestruct (readHash_ok blockHash) as [tr4 ->]; [exact Hw|exact Hh|reflexivity|].
  edestruct (readHash_ok sendRoot) as [tr5 ->]; [exact Hw|exact Hs|reflexivity|].
  reflexivity.
Qed.

Lemma readResponse_failure w (length_be message rest : list byte) :
  faultless w ->
  length length_be = 8%nat ->
  be_combine length_be = len message ->
  incoming w = failureByte :: length_be ++ message ++ rest ->
  (readResponse w).1 =
    (zeroState, Some (errors_New (string_of_list_byte message))).
Proof.
  intros Hw Hl Hv Hin. unfold readResponse.
  destruct (read_ok [failureByte] _ w Hw Hin) as [tr1 E1].
  change (len [failureByte]) with 1 in E1. rewrite E1. clear E1.
  cbn [hd]. destruct (decide (failureByte = failureByte)); [|congruence].
  edestruct (readUint64_ok length_be) as [tr2 ->]; [exact Hw|exact Hl|reflexivity|].
  rewrite Hv.
  edestruct (read_ok message) as [tr3 ->]; [exact Hw|reflexivity|].
  reflexivity.
Qed.

Lemma readResponse_other w (kind : byte) (rest : list byte) :
  faultless w ->
  kind <> successByte -> kind <> failureByte ->
  incoming w = kind :: rest ->
  (readResponse w).1 = (zeroState, Some (errors_New ipcFailure)).
Proof.
  intros Hw Hs Hf Hin. unfold readResponse.
  destruct (read_ok [kind] rest w Hw Hin) as [tr1 E1].
  change (len [kind]) with 1 in E1. rewrite E1. clear E1.
  cbn [hd]. destruct (decide (kind = failureByte)); [contradiction|].
  destruct (decide (kind = successByte)); [contradiction|].
  reflexivity.
Qed.

(** *** The claims about [prove] *)

(** C2, as the specification words it, fails: for the request of scenario 5
    the bytes that follow the 80-byte start state block are not the ten bytes
    [00 00 00 00 00 00 00 00 00 04]. *)
Lemma prove_empty_request_not_ten_bytes :
  let sent := connWritten (trace (prove request5 world5).2) in
  take 80 sent = startStateBlock (StartState request5) /\
  drop 80 sent <>
    [x00; x00; x00; x00; x00; x00; x00; x00; x00; Init.Byte.x04].
Proof. vm_compute. split; [reflexivity | discriminate]. Qed.

(** C2, amended: for a request with no batch, no delayed message and no
    preimage that is not short-circuited, and in an environment without
    failures, what [prove] writes to the connection is the start state block
    followed by exactly eleven bytes: one end-of-batches [00], one
    end-of-delayed [00], the eight zero bytes of the preimage-kind count, and
    the ready byte [04]. *)
Theorem prove_empty_request_wire (entry : ValidationInput) (w : World) :
  ignoreProveBlocks !! Id entry = None ->
  BatchInfos entry = [] ->
  HasDelayedMsg entry = false ->
  Preimages entry = ∅ ->
  faultless w ->
  connWritten (trace (prove entry w).2) =
    connWritten (trace w)
    ++ startStateBlock (StartState entry)
    ++ [x00; x00;
        x00; x00; x00; x00; x00; x00; x00; x00;
        Init.Byte.x04].
Proof.
  intros Hid Hb Hd Hp Hw. unfold prove.
  rewrite prove_written by assumption. f_equal.
  unfold requestEvents, delayedEvents. rewrite Hb, Hd, Hp.
  rewrite rangeOver_empty, map_size_empty. cbn [List.map concat app].
  unfold connWritten, startStateBlock. cbn [List.map concat].
  rewrite <- !app_assoc. reflexivity.
Qed.

Lemma prove_empty_request_wire_witness :
  connWritten (trace (prove request5 world5).2) =
    startStateBlock (StartState request5)
    ++ [x00; x00;
        x00; x00; x00; x00; x00; x00; x00; x00;
        Init.Byte.x04].
Proof.
  apply (prove_empty_request_wire request5 world5);
    [vm_compute; reflexivity | reflexivity | reflexivity | reflexivity
    | intros n; reflexivity].
Defined.

(** C5: a request whose id is a key of [ignoreProveBlocks] is answered with
    the state that the table maps it to and with no error, and the world is
    left as it was: nothing is written to the child's stdin, there is no
    listener, no accepted connection, no read and no write. *)
Theorem prove_ignored (entry : ValidationInput) (s : GoGlobalState) (w : World) :
  ignoreProveBlocks !! Id entry = Some s ->
  prove entry w = ((s, None), w).
Proof. intros Hid. unfold prove, prove_with. now rewrite Hid. Qed.

Lemma prove_ignored_witness :
  exists s,
    Batch s = 9178 /\ PosInBatch s = 480 /\
    prove {| Id := 4083577; StartState := zeroState; BatchInfos := [];
             HasDelayedMsg := false; DelayedMsgNr := 0; DelayedMsg := [];
             Preimages := ∅ |} world5 = ((s, None), world5).
Proof.
  eexists. split; [|split]; [| |apply prove_ignored; vm_compute; reflexivity];
    reflexivity.
Defined.

(** The same holds for the longer table of the other revision. *)
Lemma prove_rev2_ignored (entry : ValidationInput) (s : GoGlobalState) (w : World) :
  ignoreProveBlocks_rev2 !! Id entry = Some s ->
  prove_rev2 entry w = ((s, None), w).
Proof. intros Hid. unfold prove_rev2, prove_with. now rewrite Hid. Qed.

(** The keys of the table: fourteen blocks, 4083577 to 4083591 without
    4083582. *)
Example ignoreProveBlocks_keys :
  size ignoreProveBlocks = 14%nat /\
  forallb (fun k => bool_decide (is_Some (ignoreProveBlocks !! k)))
    [4083577; 4083578; 4083579; 4083580; 4083581; 4083583; 4083584;
     4083585; 4083586; 4083587; 4083588; 4083589; 4083590; 4083591] = true.
Proof. split; vm_compute; reflexivity. Qed.

Example ignoreProveBlocks_rev2_size : size ignoreProveBlocks_rev2 = 49%nat.
Proof. vm_compute. reflexivity. Qed.

(** C4: the case analysis on the first byte of the child's answer, for a
    request that is not short-circuited and an environment without failures.
    [00], then two 8-byte big-endian integers and two 32-byte hashes: [prove]
    returns that state and no error.  [01], then an 8-byte big-endian length
    and that many bytes: [prove] returns the error whose text is those bytes.
    Any other byte: [prove] returns the error with the fixed text. *)
Theorem prove_response_cases (entry : ValidationInput) (w : World) :
  ignoreProveBlocks !! Id entry = None ->
  faultless w ->
  (forall batch pos blockHash sendRoot rest : list byte,
      length batch = 8%nat -> length pos = 8%nat ->
      length blockHash = 32%nat -> length sendRoot = 32%nat ->
      incoming w = Init.Byte.x00 :: batch ++ pos ++ blockHash ++ sendRoot ++ rest ->
      (prove entry w).1 =
        ({| Batch := be_combine batch; PosInBatch := be_combine pos;
            BlockHash := blockHash; SendRoot := sendRoot |}, None))
  /\
  (forall length_be message rest : list byte,
      length length_be = 8%nat ->
      be_combine length_be = len message ->
      incoming w = Init.Byte.x01 :: length_be ++ message ++ rest ->
      exists err,
        (prove entry w).1 = (zeroState, Some err) /\
        err = errors_New (string_of_list_byte message) /\
        list_byte_of_string (Error err) = message)
  /\
  (forall (kind : byte) (rest : list byte),
      kind <> Init.Byte.x00 -> kind <> Init.Byte.x01 ->
      incoming w = kind :: rest ->
      (prove entry w).1 =
        (zeroState, Some (errors_New "inter-process communication failure"))).
Proof.
  intros Hid Hw. unfold prove. rewrite prove_faultless by assumption.
  set (w' := mkWorld _ _ _ _ _).
  assert (Hw' : faultless w') by exact Hw.
  split; [|split].
  - intros batch pos blockHash sendRoot rest Hb Hp Hh Hs Hin.
    now apply (readResponse_success w' batch pos blockHash sendRoot rest).
  - intros length_be message rest Hl Hv Hin.
    eexists. split; [|split].
    + now apply (readResponse_failure w' length_be message rest).
    + reflexivity.
    + apply list_byte_of_string_of_list_byte.
  - intros kind rest Hs Hf Hin.
    now apply (readResponse_other w' kind rest).
Qed.

Lemma prove_response_cases_witness :
  (prove request5 world6).1 = (zeroState, Some (errors_New "bad-preimage")).
Proof.
  destruct (prove_response_cases request5 world6) as (_ & Hfail & _);
    [vm_compute; reflexivity | intros n; reflexivity |].
  destruct (Hfail (BigEndian_PutUint64 12) (list_byte_of_string "bad-preimage") [])
    as (err & E & -> & _); [reflexivity | vm_compute; reflexivity | reflexivity |].
  exact E.
Defined.

End server_jit_facts.

(** ** Properties of the byte encodings *)

Module encoding_facts.

Lemma uint64_small (x : Z) : 0 <= x < 2 ^ 64 -> uint64 x = x.
Proof. intros H. unfold uint64. now apply Z.mod_small. Qed.

Lemma int64_small (x : Z) : 0 <= x < 2 ^ 63 -> int64 x = x.
Proof. intros H. unfold int64. rewrite Z.mod_small; lia. Qed.

Lemma be_combine_split (n : nat) (v : Z) :
  be_combine (be_split n v) = v mod 2 ^ (8 * Z.of_nat n).
Proof.
  unfold be_combine, be_split. rewrite rev_involutive, le_combine_split.
  f_equal. f_equal. lia.
Qed.

Lemma length_be_split (n : nat) (v : Z) : length (be_split n v) = n.
Proof. unfold be_split. now rewrite length_rev, length_le_split. Qed.

Lemma rev_repeat_byte (k : nat) : rev (repeat x00 k) = repeat x00 k.
Proof.
  induction k as [|k IH]; [reflexivity|].
  cbn [repeat rev]. rewrite IH. symmetry. apply repeat_cons.
Qed.

Lemma be_combine_zeros_app (k : nat) (bs : list byte) :
  be_combine (repeat x00 k ++ bs) = be_combine bs.
Proof.
  unfold be_combine. rewrite rev_app_distr, rev_repeat_byte.
  apply le_combine_app_0.
Qed.

Lemma be_combine_zeros (k : nat) : be_combine (repeat x00 k) = 0.
Proof. unfold be_combine. rewrite rev_repeat_byte. apply le_combine_0. Qed.

Lemma setBytes_short (n : nat) (b : list byte) :
  (length b <= n)%nat ->
  common.setBytes n b = repeat x00 (n - length b) ++ b.
Proof.
  intros H. unfold common.setBytes.
  replace (length b - n)%nat with 0%nat by lia. now rewrite drop_0.
Qed.

Lemma length_setBytes (n : nat) (b : list byte) : length (common.setBytes n b) = n.
Proof.
  unfold common.setBytes. rewrite length_app, repeat_length, length_drop. lia.
Qed.

(** A non-negative integer below [2^(8n)] has at most [n] significant
    bytes. *)
Lemma big_byteLen_le (n : nat) (v : Z) :
  0 <= v < 2 ^ (8 * Z.of_nat n) -> (common.big_byteLen v <= n)%nat.
Proof.
  intros [H0 H1]. unfold common.big_byteLen. rewrite Z.abs_eq by exact H0.
  destruct (v =? 0) eqn:E; [lia|]. apply Z.eqb_neq in E.
  assert (Hlog : Z.log2 v < 8 * Z.of_nat n) by (apply Z.log2_lt_pow2; lia).
  pose proof (Z.log2_nonneg v).
  assert (Z.log2 v / 8 < Z.of_nat n) by (apply Z.div_lt_upper_bound; lia).
  pose proof (Z.div_pos (Z.log2 v) 8). lia.
Qed.

Lemma be_combine_big_Bytes (v : Z) :
  be_combine (common.big_Bytes v) = Z.abs v.
Proof.
  unfold common.big_Bytes. rewrite be_combine_split.
  apply Z.mod_small. unfold common.big_byteLen.
  pose proof (Z.abs_nonneg v) as Hv. revert Hv. generalize (Z.abs v). clear v.
  intros v Hv. destruct (v =? 0) eqn:E.
  - apply Z.eqb_eq in E. subst. cbn. lia.
  - apply Z.eqb_neq in E. split; [lia|].
    pose proof (Z.log2_nonneg v).
    pose proof (Z.div_pos (Z.log2 v) 8).
    rewrite Z2Nat.id by lia.
    apply Z.log2_lt_pow2; [lia|].
    pose proof (Z.mul_succ_div_gt (Z.log2 v) 8). lia.
Qed.

(** [Hash.Big] undoes [common.BigToHash] on what fits into a word. *)
Lemma Big_BigToHash (v : Z) :
  0 <= v < 2 ^ 256 -> common.Big (common.BigToHash v) = v.
Proof.
  intros Hv. unfold common.Big, common.BigToHash, common.BytesToHash.
  assert (Hlen : (length (common.big_Bytes v) <= common.HashLength)%nat).
  { unfold common.big_Bytes. rewrite length_be_split.
    apply big_byteLen_le. exact Hv. }
  rewrite setBytes_short by exact Hlen.
  rewrite be_combine_zeros_app, be_combine_big_Bytes. apply Z.abs_eq. lia.
Qed.

Lemma Big_zeroHash : common.Big common.zeroHash = 0.
Proof. apply be_combine_zeros. Qed.

Lemma BigToHash_nonzero (v : Z) :
  0 < v < 2 ^ 256 -> common.BigToHash v <> common.zeroHash.
Proof.
  intros Hv E. apply (f_equal common.Big) in E.
  rewrite Big_BigToHash, Big_zeroHash in E; lia.
Qed.

(** An address survives the way into a storage word and back. *)
Lemma BytesToAddress_BytesToHash (a : list byte) :
  length a = common.AddressLength ->
  common.BytesToAddress (common.BytesToHash a) = a.
Proof.
  intros Ha. unfold common.BytesToAddress, common.BytesToHash.
  rewrite (setBytes_short common.HashLength) by (rewrite Ha; cbv; lia).
  unfold common.setBytes.
  rewrite length_app, repeat_length, Ha.
  change (common.HashLength - common.AddressLength + common.AddressLength
          - common.AddressLength)%nat with 12%nat.
  change (common.HashLength - common.AddressLength)%nat with 12%nat.
  rewrite drop_app_length' by (symmetry; apply repeat_length).
  rewrite Ha. reflexivity.
Qed.

(** [binary.LittleEndian.PutUint64] writes the little-endian representation
    of coqutil's [le_split]. *)
Lemma LittleEndian_PutUint64_le_split (v : Z) :
  LittleEndian_PutUint64 v = le_split 8 v.
Proof.
  unfold LittleEndian_PutUint64. cbv [le_split].
  rewrite !Z.shiftr_shiftr by lia. reflexivity.
Qed.

Lemma BigEndian_PutUint64_be_split (v : Z) :
  BigEndian_PutUint64 v = be_split 8 v.
Proof.
  unfold BigEndian_PutUint64, be_split. cbv [le_split]. cbn [rev app].
  rewrite !Z.shiftr_shiftr by lia. reflexivity.
Qed.

End encoding_facts.

(** ** Properties of the retryable registry *)

Module retryables_facts.
Import storage retryables encoding_facts.

(** *** The storage contract *)

Lemma GetByUint64_SetByUint64 sto offset value b :
  GetByUint64 sto offset (SetByUint64 sto offset value b) = value.
Proof. unfold GetByUint64, SetByUint64. cbn. now rewrite lookup_insert_eq. Qed.

Lemma GetByUint64_SetByUint64_ne sto offset sto' offset' value b :
  (sto, offset) <> (sto', offset') ->
  GetByUint64 sto' offset' (SetByUint64 sto offset value b) = GetByUint64 sto' offset' b.
Proof.
  intros Hne. unfold GetByUint64, SetByUint64. cbn.
  now rewrite lookup_insert_ne.
Qed.

Lemma queueContents_Put q value b :
  queueContents q (Put q value b) = queueContents q b ++ [value].
Proof. unfold queueContents at 1, Put. cbn. now rewrite lookup_insert_eq. Qed.

Lemma storageOf_inj rs id id' : storageOf rs id = storageOf rs id' -> id = id'.
Proof. unfold storageOf, OpenSubStorage. intros E. now apply app_inj_tail in E. Qed.

Lemma OpenRetryable_Some rs id now b ret :
  OpenRetryable rs id now b = Some ret <->
  live rs id b /\ ret = mkRetryable id (storageOf rs id) None None None None None None None.
Proof.
  unfold OpenRetryable, live, timeoutSlot, storageOf.
  destruct (decide _) as [E|E]; split.
  - discriminate.
  - intros [H _]. contradiction.
  - intros [= <-]. auto.
  - intros [_ ->]. reflexivity.
Qed.

Lemma OpenRetryable_None rs id now b :
  OpenRetryable rs id now b = None <-> timeoutSlot rs id b = common.zeroHash.
Proof.
  unfold OpenRetryable, timeoutSlot, storageOf.
  destruct (decide _) as [E|E]; split; auto; try discriminate. contradiction.
Qed.

(** *** The reaper *)

(** What one reaping step does: the slots and byte strings stay, and the
    queue loses its head, which goes to the tail when its retryable is
    live. *)
Lemma TryToReapOneRetryable_queue rs now b :
  let b' := TryToReapOneRetryable rs now b in
  slots b' = slots b /\
  byteStrings b' = byteStrings b /\
  timeoutQueueOf rs b' =
    match timeoutQueueOf rs b with
    | [] => []
    | id :: rest =>
        match OpenRetryable rs id now b with
        | Some _ => rest ++ [id]
        | None => rest
        end
    end.
Proof.
  unfold TryToReapOneRetryable, IsEmpty, Get, timeoutQueueOf.
  destruct (queueContents (timeoutQueue rs) b) as [|id rest] eqn:Hq; cbn [negb].
  - rewrite Hq. auto.
  - set (b1 := mkBacking _ _ _).
    assert (Hopen : OpenRetryable rs id now b1 = OpenRetryable rs id now b) by reflexivity.
    assert (Hq1 : queueContents (timeoutQueue rs) b1 = rest).
    { unfold queueContents, b1. cbn. now rewrite lookup_insert_eq. }
    rewrite Hopen. destruct (OpenRetryable rs id now b).
    + rewrite queueContents_Put, Hq1. auto.
    + auto.
Qed.

(** C6: [TryToReapOneRetryable] leaves a store with an empty timeout queue as
    it is.  On a queue [id :: rest] it takes [id] off the head, and the queue
    becomes [rest ++ [id]] when [OpenRetryable] finds the retryable and
    [rest] when it does not; nothing is compared with the current time (the
    result is the same for every timestamp, whatever the stored timeout),
    and no slot and no byte string of the store changes. *)
Theorem TryToReapOneRetryable_spec
    (rs : RetryableState) (currentTimestamp : Z) (b : Backing) :
  let b' := TryToReapOneRetryable rs currentTimestamp b in
  (timeoutQueueOf rs b = [] -> b' = b) /\
  (forall id rest, timeoutQueueOf rs b = id :: rest ->
     (forall ret, OpenRetryable rs id currentTimestamp b = Some ret ->
        timeoutQueueOf rs b' = rest ++ [id]) /\
     (OpenRetryable rs id currentTimestamp b = None ->
        timeoutQueueOf rs b' = rest)) /\
  (forall otherTimestamp, TryToReapOneRetryable rs otherTimestamp b = b') /\
  slots b' = slots b /\
  byteStrings b' = byteStrings b.
Proof.
  destruct (TryToReapOneRetryable_queue rs currentTimestamp b) as (Hs & Hb & Hq).
  cbn zeta. split; [|split; [|split; [|split]]]; try assumption.
  - intros Hempty. unfold TryToReapOneRetryable, IsEmpty.
    unfold timeoutQueueOf in Hempty. now rewrite Hempty.
  - intros id rest Hhead. split.
    + intros ret Hopen. rewrite Hq, Hhead, Hopen. reflexivity.
    + intros Hopen. rewrite Hq, Hhead, Hopen. reflexivity.
  - intros otherTimestamp. reflexivity.
Qed.

(** *** The queue invariant *)

(** An operation that changes no timeout slot and only adds to the queue
    keeps the invariant. *)
Lemma queue_invariant_frame rs b b' :
  (forall id, live rs id b' -> live rs id b) ->
  (forall id, id ∈ timeoutQueueOf rs b -> live rs id b' -> id ∈ timeoutQueueOf rs b') ->
  queue_invariant rs b -> queue_invariant rs b'.
Proof. intros Hlive Hqueue Hinv id Hid. apply Hqueue; auto. Qed.

Lemma live_slots rs id b b' : slots b' = slots b -> live rs id b' <-> live rs id b.
Proof.
  intros E. unfold live, timeoutSlot, GetByUint64. now rewrite E.
Qed.

Lemma queue_invariant_TryToReapOneRetryable rs now b :
  queue_invariant rs b -> queue_invariant rs (TryToReapOneRetryable rs now b).
Proof.
  destruct (TryToReapOneRetryable_queue rs now b) as (Hs & _ & Hq).
  apply queue_invariant_frame.
  - intros id. now rewrite (live_slots rs id _ _ Hs).
  - intros id Hin Hlive. rewrite (live_slots rs id _ _ Hs) in Hlive.
    rewrite Hq. destruct (timeoutQueueOf rs b) as [|hd rest]; [exact Hin|].
    apply elem_of_cons in Hin as [->|Hin].
    + destruct (OpenRetryable rs hd now b) eqn:Hopen.
      * apply elem_of_app. right. apply list_elem_of_here.
      * apply OpenRetryable_None in Hopen. contradiction.
    + destruct (OpenRetryable rs hd now b); [apply elem_of_app|]; auto.
Qed.

(** A write to a slot of the retryable [id] leaves the timeout slots of the
    other retryables alone; a write at another offset leaves all of them
    alone. *)
Lemma timeoutSlot_SetByUint64_other rs id id' offset value b :
  id' <> id ->
  timeoutSlot rs id' (SetByUint64 (storageOf rs id) offset value b) = timeoutSlot rs id' b.
Proof.
  intros Hne. unfold timeoutSlot. apply GetByUint64_SetByUint64_ne.
  intros [= E]. apply storageOf_inj in E. congruence.
Qed.

Lemma timeoutSlot_SetByUint64_offset rs sto id offset value b :
  offset <> timeoutOffset ->
  timeoutSlot rs id (SetByUint64 sto offset value b) = timeoutSlot rs id b.
Proof.
  intros Hne. unfold timeoutSlot. apply GetByUint64_SetByUint64_ne. congruence.
Qed.

(** The store after a successful [CreateRetryable], slot by slot. *)
Lemma CreateRetryable_Some rs now id timeout from to callvalue beneficiary calldata b ret b' :
  CreateRetryable rs now id timeout from to callvalue beneficiary calldata b = Some (ret, b') ->
  exists toBytes,
    to = Some toBytes /\
    ret = mkRetryable id (storageOf rs id) (Some 0) (Some timeout) (Some from)
            (Some toBytes) (Some callvalue) (Some beneficiary) calldata /\
    b' = Put (timeoutQueue rs) id
          (WriteBytes (OpenSubStorage (storageOf rs id) calldataKey) (sliceBytes calldata)
          (SetByUint64 (storageOf rs id) beneficiaryOffset (common.BytesToHash beneficiary)
          (SetByUint64 (storageOf rs id) callvalueOffset (common.BigToHash callvalue)
          (SetByUint64 (storageOf rs id) toOffset (common.BytesToHash toBytes)
          (SetByUint64 (storageOf rs id) fromOffset (common.BytesToHash from)
          (SetByUint64 (storageOf rs id) timeoutOffset (util.IntToHash (int64 timeout))
          (SetByUint64 (storageOf rs id) numTriesOffset common.zeroHash
          (TryToReapOneRetryable rs now b)))))))).
Proof.
  unfold CreateRetryable. destruct to as [toBytes|]; [|discriminate].
  intros [= <- <-]. exists toBytes. auto.
Qed.

Lemma queue_invariant_CreateRetryable
    rs now id timeout from to callvalue beneficiary calldata b ret b' :
  CreateRetryable rs now id timeout from to callvalue beneficiary calldata b = Some (ret, b') ->
  queue_invariant rs b -> queue_invariant rs b'.
Proof.
  intros Hc Hinv. apply CreateRetryable_Some in Hc as (toBytes & _ & _ & ->).
  apply (queue_invariant_TryToReapOneRetryable rs now) in Hinv.
  intros id' Hlive. unfold timeoutQueueOf. rewrite queueContents_Put.
  apply elem_of_app. destruct (decide (id' = id)) as [->|Hne].
  - right. apply list_elem_of_here.
  - left. apply Hinv. unfold live in *.
    change (timeoutSlot rs id' (Put ?q ?v ?b)) with (timeoutSlot rs id' b) in Hlive.
    change (timeoutSlot rs id' (WriteBytes ?s ?d ?b)) with (timeoutSlot rs id' b) in Hlive.
    now rewrite !timeoutSlot_SetByUint64_other in Hlive by exact Hne.
Qed.

Lemma queue_invariant_DeleteRetryable rs id b :
  queue_invariant rs b -> queue_invariant rs (DeleteRetryable rs id b).2.
Proof.
  unfold DeleteRetryable. fold (storageOf rs id).
  destruct (decide _) as [E|E]; [auto|]. cbn [snd].
  apply queue_invariant_frame; [|auto].
  intros id' Hlive. unfold live in *.
  change (timeoutSlot rs id' (DeleteBytes ?s ?b)) with (timeoutSlot rs id' b) in Hlive.
  destruct (decide (id' = id)) as [->|Hne].
  - exfalso. apply Hlive.
    do 4 (rewrite timeoutSlot_SetByUint64_offset by discriminate).
    apply GetByUint64_SetByUint64.
  - now rewrite !timeoutSlot_SetByUint64_other in Hlive by exact Hne.
Qed.

Lemma queue_invariant_Keepalive rs ticketId now limitBeforeAdd timeToAdd b :
  queue_invariant rs b ->
  queue_invariant rs (Keepalive rs ticketId now limitBeforeAdd timeToAdd b).2.
Proof.
  intros Hinv. unfold Keepalive.
  destruct (OpenRetryable rs ticketId now b) as [ret|] eqn:Hopen; [|exact Hinv].
  apply OpenRetryable_Some in Hopen as [Hlive ->].
  cbn. destruct (_ >? _); [exact Hinv|]. cbn.
  intros id' Hid'. destruct (decide (id' = ticketId)) as [->|Hne].
  - apply Hinv, Hlive.
  - apply Hinv. unfold live in *.
    now rewrite timeoutSlot_SetByUint64_other in Hid' by exact Hne.
Qed.

Lemma queue_invariant_IncrementNumTries rs retryable b :
  queue_invariant rs b -> queue_invariant rs (IncrementNumTries retryable b).2.2.
Proof.
  unfold IncrementNumTries. destruct (NumTries retryable b) as [n retryable'] eqn:E.
  assert (Hsto : backingStorage retryable' = backingStorage retryable).
  { unfold NumTries in E. destruct (numTries retryable); now inversion E. }
  cbn. unfold SetUint64ByUint64. rewrite Hsto.
  apply queue_invariant_frame; [|auto].
  intros id Hlive. unfold live in *.
  now rewrite timeoutSlot_SetByUint64_offset in Hlive by discriminate.
Qed.

Lemma queue_invariant_step rs b b' :
  step rs b b' -> queue_invariant rs b -> queue_invariant rs b'.
Proof.
  destruct 1.
  - eapply queue_invariant_CreateRetryable; eassumption.
  - auto.
  - apply queue_invariant_DeleteRetryable.
  - apply queue_invariant_Keepalive.
  - auto.
  - apply queue_invariant_TryToReapOneRetryable.
  - apply queue_invariant_IncrementNumTries.
Qed.

(** C7: in every state that the registry reaches, each live retryable (one
    whose timeout slot is not zero) has its ticket id in the timeout queue;
    and each of [CreateRetryable], [OpenRetryable], [DeleteRetryable],
    [Keepalive], [RetryableSizeBytes], [TryToReapOneRetryable] and
    [IncrementNumTries] takes a state with that property to a state with
    it. *)
Theorem queue_invariant_holds (sto : Storage) :
  let rs := OpenRetryableState sto in
  (forall b b', queue_invariant rs b -> step rs b b' -> queue_invariant rs b') /\
  (forall b, reachable sto b -> queue_invariant rs b).
Proof.
  cbn zeta. split.
  - intros b b' Hinv Hstep. now apply (queue_invariant_step _ b b').
  - intros b (b0 & Hfresh & Hrun).
    revert b Hrun.
    apply (rtc_ind_r (R := step (OpenRetryableState sto))
             (queue_invariant (OpenRetryableState sto))).
    + intros id Hlive. exfalso. apply (Hfresh id). exact Hlive.
    + intros y z _ Hstep Hinv. now apply (queue_invariant_step _ y z).
Qed.

(** *** Create, then open *)

Lemma GetByUint64_SetByUint64_offset sto offset sto' offset' value b :
  offset <> offset' ->
  GetByUint64 sto' offset' (SetByUint64 sto offset value b) = GetByUint64 sto' offset' b.
Proof. intros Hne. apply GetByUint64_SetByUint64_ne. congruence. Qed.

Lemma GetBytes_WriteBytes sto data b : GetBytes sto (WriteBytes sto data b) = data.
Proof. unfold GetBytes, WriteBytes. cbn. now rewrite lookup_insert_eq. Qed.

Ltac read_slot :=
  repeat first
    [ rewrite GetByUint64_SetByUint64
    | rewrite GetByUint64_SetByUint64_offset by (cbv; discriminate) ].

Section CreateThenOpen.

Variables (rs : RetryableState) (now : Z) (id : common.Hash) (timeout : Z)
  (from toBytes : common.Address) (callvalue : Z)
  (beneficiary : common.Address) (calldata : option (list byte)) (b : Backing).

(** The store that [CreateRetryable] leaves for a non-nil [to]. *)
Let sto := storageOf rs id.
Let b' : Backing :=
  Put (timeoutQueue rs) id
    (WriteBytes (OpenSubStorage sto calldataKey) (sliceBytes calldata)
    (SetByUint64 sto beneficiaryOffset (common.BytesToHash beneficiary)
    (SetByUint64 sto callvalueOffset (common.BigToHash callvalue)
    (SetByUint64 sto toOffset (common.BytesToHash toBytes)
    (SetByUint64 sto fromOffset (common.BytesToHash from)
    (SetByUint64 sto timeoutOffset (util.IntToHash (int64 timeout))
    (SetByUint64 sto numTriesOffset common.zeroHash
    (TryToReapOneRetryable rs now b)))))))).

Lemma created_slots :
  GetByUint64 sto numTriesOffset b' = common.zeroHash /\
  GetByUint64 sto timeoutOffset b' = util.IntToHash (int64 timeout) /\
  GetByUint64 sto fromOffset b' = common.BytesToHash from /\
  GetByUint64 sto toOffset b' = common.BytesToHash toBytes /\
  GetByUint64 sto callvalueOffset b' = common.BigToHash callvalue /\
  GetByUint64 sto beneficiaryOffset b' = common.BytesToHash beneficiary /\
  GetBytes (OpenSubStorage sto calldataKey) b' = sliceBytes calldata.
Proof.
  unfold b'.
  change (GetByUint64 ?s ?o (Put ?q ?v ?x)) with (GetByUint64 s o x).
  change (GetByUint64 ?s ?o (WriteBytes ?t ?d ?x)) with (GetByUint64 s o x).
  change (GetBytes ?s (Put ?q ?v ?x)) with (GetBytes s x).
  repeat split; read_slot; try reflexivity.
  apply GetBytes_WriteBytes.
Qed.

End CreateThenOpen.

(** What a fresh handle reads from a timeout slot written by [SetTimeout] or
    [CreateRetryable]. *)
Lemma Uint64_Big_IntToHash (t : Z) :
  0 <= t < 2 ^ 63 ->
  common.Uint64 (common.Big (util.IntToHash (int64 t))) = t.
Proof.
  intros Ht. rewrite int64_small by exact Ht. unfold util.IntToHash.
  rewrite Big_BigToHash by lia. apply uint64_small. lia.
Qed.

Lemma IntToHash_nonzero (t : Z) :
  0 < t < 2 ^ 63 -> util.IntToHash (int64 t) <> common.zeroHash.
Proof.
  intros Ht. rewrite int64_small by lia. apply BigToHash_nonzero. lia.
Qed.

Lemma IntToHash_zero : util.IntToHash (int64 0) = common.zeroHash.
Proof. reflexivity. Qed.

(** X18: create then open, for a [to] that is not nil.  For a timeout with
    [0 < timeout < 2^63], 20-byte addresses [from], [to] and [beneficiary]
    and a callvalue with [0 <= callvalue < 2^256], [CreateRetryable] returns
    a handle, after which [OpenRetryable] of the same id finds the retryable
    at any time; [Equals] holds between the two handles, and the opened
    handle reads [num_tries = 0] and the timeout, from, to, callvalue,
    beneficiary and calldata that were passed in. *)
Theorem create_then_open
    (rs : RetryableState) (now now' : Z) (id : common.Hash) (timeout : Z)
    (from toBytes : common.Address) (callvalue : Z)
    (beneficiary : common.Address) (calldata : option (list byte)) (b : Backing) :
  0 < timeout < 2 ^ 63 ->
  length from = 20%nat ->
  length toBytes = 20%nat ->
  0 <= callvalue < 2 ^ 256 ->
  length beneficiary = 20%nat ->
  exists created b' opened,
    CreateRetryable rs now id timeout from (Some toBytes) callvalue
      beneficiary calldata b = Some (created, b') /\
    OpenRetryable rs id now' b' = Some opened /\
    (Equals created opened b').1 = true /\
    (NumTries opened b').1 = 0 /\
    (Timeout opened b').1 = timeout /\
    (From opened b').1 = from /\
    (To opened b').1 = Some toBytes /\
    (Callvalue opened b').1 = callvalue /\
    (Beneficiary opened b').1 = beneficiary /\
    (Calldata opened b').1 = sliceBytes calldata.
Proof.
  intros Ht Hfrom Hto Hcv Hben.
  pose proof (created_slots rs now id timeout from toBytes callvalue
                beneficiary calldata b) as (Hs0 & Hs1 & Hs2 & Hs3 & Hs4 & Hs5 & Hs6).
  match type of Hs0 with GetByUint64 _ _ ?x = _ => set (b' := x) in * end.
  exists (mkRetryable id (storageOf rs id) (Some 0) (Some timeout) (Some from)
            (Some toBytes) (Some callvalue) (Some beneficiary) calldata),
         b',
         (mkRetryable id (storageOf rs id) None None None None None None None).
  assert (Hread_t : common.Uint64 (common.Big (GetByUint64 (storageOf rs id) timeoutOffset b')) = timeout).
  { rewrite Hs1. apply Uint64_Big_IntToHash. lia. }
  assert (Hread_f : common.BytesToAddress (GetByUint64 (storageOf rs id) fromOffset b') = from).
  { rewrite Hs2. now apply BytesToAddress_BytesToHash. }
  assert (Hread_to : common.BytesToAddress (GetByUint64 (storageOf rs id) toOffset b') = toBytes).
  { rewrite Hs3. now apply BytesToAddress_BytesToHash. }
  assert (Hread_v : common.Big (GetByUint64 (storageOf rs id) callvalueOffset b') = callvalue).
  { rewrite Hs4. now apply Big_BigToHash. }
  assert (Hread_b : common.BytesToAddress (GetByUint64 (storageOf rs id) beneficiaryOffset b') = beneficiary).
  { rewrite Hs5. now apply BytesToAddress_BytesToHash. }
  split; [reflexivity|].
  split.
  { apply OpenRetryable_Some. split; [|reflexivity].
    unfold live, timeoutSlot. rewrite Hs1. now apply IntToHash_nonzero. }
  split.
  { unfold Equals, Timeout, From, To, Callvalue, Beneficiary, Calldata.
    cbn [retryables.id backingStorage numTries retryables.timeout
         retryables.from to retryables.callvalue retryables.beneficiary
         retryables.calldata].
    rewrite bool_decide_eq_true_2 by reflexivity. cbn [negb].
    rewrite Hread_t, Z.eqb_refl. cbn [negb].
    rewrite Hread_f, bool_decide_eq_true_2 by reflexivity. cbn [negb].
    rewrite Hread_to, bool_decide_eq_true_2 by reflexivity. cbn [negb].
    rewrite Hread_v, Z.eqb_refl. cbn [negb].
    rewrite Hread_b, bool_decide_eq_true_2 by reflexivity. cbn [negb].
    rewrite Hs6. destruct calldata; cbn; now rewrite ?Hs6, bool_decide_eq_true_2. }
  unfold NumTries, Timeout, From, To, Callvalue, Beneficiary, Calldata.
  cbn [retryables.id backingStorage numTries retryables.timeout
       retryables.from to retryables.callvalue retryables.beneficiary
       retryables.calldata fst].
  rewrite Hs0, Hread_t, Hread_f, Hread_to, Hread_v, Hread_b, Hs6.
  repeat split.
Qed.

Lemma create_then_open_witness :
  exists created b' opened,
    CreateRetryable registry 500 ticket1 1000 alice (Some bob) 0 carol
      (Some []) store0 = Some (created, b') /\
    OpenRetryable registry ticket1 501 b' = Some opened /\
    (Equals created opened b').1 = true /\
    (NumTries opened b').1 = 0 /\
    (Timeout opened b').1 = 1000 /\
    (From opened b').1 = alice /\
    (To opened b').1 = Some bob /\
    (Callvalue opened b').1 = 0 /\
    (Beneficiary opened b').1 = carol /\
    (Calldata opened b').1 = [].
Proof.
  apply (create_then_open registry 500 501 ticket1 1000 alice bob 0 carol (Some []) store0);
    [lia | reflexivity | reflexivity | lia | reflexivity].
Defined.

(** The zero timeout slot is the sign of absence: were a retryable created
    with timeout [0], which the specification rules out, [OpenRetryable]
    would not find it. *)
Lemma create_zero_timeout_then_open_absent :
  exists created b',
    CreateRetryable registry 500 ticket1 0 alice (Some bob) 0 carol
      (Some []) store0 = Some (created, b') /\
    OpenRetryable registry ticket1 500 b' = None.
Proof. eexists _, _. split; [reflexivity|]. vm_compute. reflexivity. Qed.

(** With [to = nil], [CreateRetryable] dereferences the nil pointer and
    returns no handle. *)
Lemma CreateRetryable_nil_to rs now id timeout from callvalue beneficiary calldata b :
  CreateRetryable rs now id timeout from None callvalue beneficiary calldata b = None.
Proof. reflexivity. Qed.

(** [To] never returns nil: a nil [to] field is taken for an empty cache. *)
Lemma To_not_nil retryable b : (To retryable b).1 <> None.
Proof. unfold To. destruct (to retryable); discriminate. Qed.

(** C1 at scenario 1 of the specification, where [to] is nil: the id
    [0x11..11], the timeout 1000, the callvalue 0 and empty calldata.
    [CreateRetryable] evaluates [to.Bytes()] on the nil pointer and panics:
    it returns no handle, and the registry holds no retryable for
    [OpenRetryable] to find.  Nor could a nil [to] be read back as nil: the
    getter [To] returns an address for every handle and every store,
    although the field is documented as possibly nil and [Equals] compares
    it as such. *)
Theorem create_nil_to_panics :
  CreateRetryable registry 500 ticket1 1000 alice None 0 carol (Some []) store0
    = None /\
  OpenRetryable registry ticket1 500 store0 = None /\
  (forall retryable b, (To retryable b).1 <> None).
Proof.
  split; [reflexivity|]. split; [vm_compute; reflexivity|].
  intros retryable b. unfold To. destruct (to retryable); discriminate.
Qed.

(** A callvalue of [2^256] does not fit into its slot: the created handle and
    the opened one differ. *)
Lemma create_large_callvalue_not_Equals :
  exists created b' opened,
    CreateRetryable registry 500 ticket1 1000 alice (Some bob) (2 ^ 256) carol
      (Some []) store0 = Some (created, b') /\
    OpenRetryable registry ticket1 500 b' = Some opened /\
    (Equals created opened b').1 = false.
Proof.
  eexists _, _, _. split; [reflexivity|].
  split; [vm_compute; reflexivity|]. vm_compute. reflexivity.
Qed.

(** Scenarios 1 and 2 of the specification, with a non-nil [to]. *)
Example RetryableSizeBytes_scenarios :
  RetryableSizeBytes registry ticket1 500 (storeWith 1000 []) = 192 /\
  RetryableSizeBytes registry ticket1 500
    (storeWith 1000 [Init.Byte.xaa; Init.Byte.xbb; Init.Byte.xcc]) = 195 /\
  (Calldata (mkRetryable ticket1 (storageOf registry ticket1)
               None None None None None None None)
     (storeWith 1000 [Init.Byte.xaa; Init.Byte.xbb; Init.Byte.xcc])).1
    = [Init.Byte.xaa; Init.Byte.xbb; Init.Byte.xcc].
Proof. repeat split; vm_compute; reflexivity. Qed.

(** *** Timeouts *)

(** C8, as the specification words it, fails: after [SetTimeout(0)] the
    handle still reads [0], but [OpenRetryable] no longer finds the
    retryable, so there is no handle to read the timeout from. *)
Lemma SetTimeout_zero_then_open_absent :
  let retryable := mkRetryable ticket1 (storageOf registry ticket1)
                     None None None None None None None in
  OpenRetryable registry ticket1 500 (storeWith 1000 []) = Some retryable /\
  let '(retryable', b') := SetTimeout retryable 0 (storeWith 1000 []) in
  (Timeout retryable' b').1 = 0 /\
  OpenRetryable registry ticket1 500 b' = None.
Proof. vm_compute. repeat split; reflexivity. Qed.

(** C8, amended: after [SetTimeout(t)] on a handle, [Timeout()] on that
    handle returns [t], for every [t]; and when the handle belongs to the
    registry and [0 < t < 2^63], [OpenRetryable] of its id finds the retryable
    and [Timeout()] on the opened handle returns [t] as well. *)
Theorem SetTimeout_then_Timeout
    (rs : RetryableState) (retryable : Retryable) (t : Z) (b : Backing) :
  let '(retryable', b') := SetTimeout retryable t b in
  (Timeout retryable' b').1 = t /\
  (handleOf rs retryable -> 0 < t < 2 ^ 63 ->
   forall now, exists opened,
     OpenRetryable rs (id retryable) now b' = Some opened /\
     (Timeout opened b').1 = t).
Proof.
  unfold SetTimeout. split; [reflexivity|].
  intros Hh Ht now. rewrite Hh.
  eexists. split.
  - apply OpenRetryable_Some. split; [|reflexivity].
    unfold live, timeoutSlot. rewrite GetByUint64_SetByUint64.
    now apply IntToHash_nonzero.
  - unfold Timeout. cbn [retryables.timeout backingStorage fst].
    rewrite GetByUint64_SetByUint64. apply Uint64_Big_IntToHash. lia.
Qed.

Lemma SetTimeout_then_Timeout_witness :
  let retryable := mkRetryable ticket1 (storageOf registry ticket1)
                     None None None None None None None in
  let '(retryable', b') := SetTimeout retryable 1100 (storeWith 1000 []) in
  (Timeout retryable' b').1 = 1100 /\
  exists opened,
    OpenRetryable registry ticket1 500 b' = Some opened /\
    (Timeout opened b').1 = 1100.
Proof.
  pose proof (SetTimeout_then_Timeout registry
                (mkRetryable ticket1 (storageOf registry ticket1)
                   None None None None None None None)
                1100 (storeWith 1000 [])) as H.
  cbn zeta. destruct (SetTimeout _ _ _) as [retryable' b'].
  destruct H as [H1 H2]. split; [exact H1|].
  apply (H2 eq_refl); lia.
Defined.

(** *** Keep-alive *)

Lemma Timeout_opened rs id now b ret :
  OpenRetryable rs id now b = Some ret ->
  (Timeout ret b).1 = storedTimeout rs id b /\ backingStorage ret = storageOf rs id.
Proof. intros H. apply OpenRetryable_Some in H as [_ ->]. split; reflexivity. Qed.

(** [Keepalive] on a live retryable. *)
Lemma Keepalive_live rs ticketId now limitBeforeAdd timeToAdd b :
  live rs ticketId b ->
  Keepalive rs ticketId now limitBeforeAdd timeToAdd b =
    if storedTimeout rs ticketId b >? limitBeforeAdd then (false, b)
    else (true,
          SetByUint64 (storageOf rs ticketId) timeoutOffset
            (util.IntToHash (int64 (uint64 (storedTimeout rs ticketId b + timeToAdd)))) b).
Proof.
  intros Hlive. unfold Keepalive.
  destruct (OpenRetryable rs ticketId now b) as [ret|] eqn:Hopen.
  - apply OpenRetryable_Some in Hopen as [_ ->]. cbn.
    fold (timeoutSlot rs ticketId b). fold (storedTimeout rs ticketId b).
    now destruct (_ >? _).
  - apply OpenRetryable_None in Hopen. contradiction.
Qed.

(** X19: the cases of [Keepalive], for sums below [2^63].  [Keepalive]
    returns false when [OpenRetryable] finds no retryable; it returns false
    and leaves the store, and so the stored timeout, as it is when the
    timeout is greater than [limitBeforeAdd]; otherwise it returns true after
    [SetTimeout] of the timeout plus [timeToAdd], the sum being that of Go's
    [uint64], and a sum between [0] and [2^63] is what the timeout slot reads
    as afterwards. *)
Theorem Keepalive_spec
    (rs : RetryableState) (ticketId : common.Hash)
    (currentTimestamp limitBeforeAdd timeToAdd : Z) (b : Backing) :
  (OpenRetryable rs ticketId currentTimestamp b = None ->
   Keepalive rs ticketId currentTimestamp limitBeforeAdd timeToAdd b = (false, b))
  /\
  (forall retryable,
     OpenRetryable rs ticketId currentTimestamp b = Some retryable ->
     let timeout := (Timeout retryable b).1 in
     (timeout > limitBeforeAdd ->
      Keepalive rs ticketId currentTimestamp limitBeforeAdd timeToAdd b = (false, b))
     /\
     (timeout <= limitBeforeAdd ->
      Keepalive rs ticketId currentTimestamp limitBeforeAdd timeToAdd b =
        (true, (SetTimeout retryable (uint64 (timeout + timeToAdd)) b).2) /\
      (0 < timeout + timeToAdd < 2 ^ 63 ->
       storedTimeout rs ticketId
         (Keepalive rs ticketId currentTimestamp limitBeforeAdd timeToAdd b).2
       = timeout + timeToAdd))).
Proof.
  split.
  - intros Hopen. unfold Keepalive. now rewrite Hopen.
  - intros retryable Hopen.
    destruct (Timeout_opened _ _ _ _ _ Hopen) as [Ht Hsto].
    apply OpenRetryable_Some in Hopen as [Hlive Hret].
    cbn zeta. rewrite Ht. rewrite Keepalive_live by exact Hlive. split.
    + intros Hgt. now replace (_ >? _) with true by (symmetry; apply Z.gtb_gt; lia).
    + intros Hle.
      replace (_ >? _) with false by (symmetry; rewrite Z.gtb_ltb; apply Z.ltb_ge; lia).
      split.
      * unfold SetTimeout. now rewrite Hsto.
      * intros Hsum. cbn [snd].
        generalize dependent (storedTimeout rs ticketId b). intros t _ _ Hsum.
        unfold storedTimeout, timeoutSlot.
        rewrite GetByUint64_SetByUint64.
        rewrite (uint64_small (_ + _)) by lia.
        apply Uint64_Big_IntToHash. lia.
Qed.

(** Scenario 3 of the specification. *)
Lemma Keepalive_spec_witness :
  Keepalive registry ticket1 500 900 300 (storeWith 1000 []) = (false, storeWith 1000 [])
  /\
  (Keepalive registry ticket1 500 900 300 (storeWith 800 [])).1 = true /\
  storedTimeout registry ticket1
    (Keepalive registry ticket1 500 900 300 (storeWith 800 [])).2 = 1100.
Proof.
  pose (opened := mkRetryable ticket1 (storageOf registry ticket1)
                    None None None None None None None).
  split.
  - destruct (Keepalive_spec registry ticket1 500 900 300 (storeWith 1000 []))
      as [_ H].
    destruct (H opened) as [Hgt _]; [vm_compute; reflexivity|].
    apply Hgt. vm_compute. reflexivity.
  - destruct (Keepalive_spec registry ticket1 500 900 300 (storeWith 800 []))
      as [_ H].
    destruct (H opened) as [_ Hle]; [vm_compute; reflexivity|].
    destruct Hle as [E Hread]; [vm_compute; discriminate|].
    split; [now rewrite E|].
    rewrite Hread; vm_compute; [reflexivity | split; reflexivity].
Defined.

(** X20: a [Keepalive] whose sum wraps around.  For a live retryable whose
    stored timeout [t] is at most [limitBeforeAdd], [Keepalive] returns true
    and writes the word of [int64 ((t + timeToAdd) mod 2^64)] into the
    timeout slot; that is the timeout read back when the residue lies
    between [0] and [2^63]; and when the residue is [0] the slot is the zero
    word, so that [OpenRetryable] finds no retryable although [Keepalive]
    returned true. *)
Theorem Keepalive_wraps
    (rs : RetryableState) (ticketId : common.Hash)
    (currentTimestamp limitBeforeAdd timeToAdd : Z) (b : Backing) :
  live rs ticketId b ->
  storedTimeout rs ticketId b <= limitBeforeAdd ->
  let t := storedTimeout rs ticketId b in
  let '(ok, b') := Keepalive rs ticketId currentTimestamp limitBeforeAdd timeToAdd b in
  ok = true /\
  timeoutSlot rs ticketId b' = util.IntToHash (int64 ((t + timeToAdd) mod 2 ^ 64)) /\
  (0 < (t + timeToAdd) mod 2 ^ 64 < 2 ^ 63 ->
   storedTimeout rs ticketId b' = (t + timeToAdd) mod 2 ^ 64) /\
  ((t + timeToAdd) mod 2 ^ 64 = 0 ->
   forall now, OpenRetryable rs ticketId now b' = None).
Proof.
  intros Hlive Hle. cbn zeta. rewrite Keepalive_live by exact Hlive.
  replace (_ >? _) with false by (symmetry; rewrite Z.gtb_ltb; apply Z.ltb_ge; lia).
  unfold uint64.
  set (t := storedTimeout rs ticketId b) in *. clearbody t.
  split; [reflexivity|]. split; [|split].
  - unfold timeoutSlot. apply GetByUint64_SetByUint64.
  - intros Hsum. unfold storedTimeout, timeoutSlot.
    rewrite GetByUint64_SetByUint64. apply Uint64_Big_IntToHash. lia.
  - intros Hzero now. apply OpenRetryable_None.
    unfold timeoutSlot. rewrite GetByUint64_SetByUint64, Hzero.
    apply IntToHash_zero.
Qed.

(** A retryable with timeout 800 kept alive by [2^64 - 800] seconds. *)
Lemma Keepalive_wraps_witness :
  let '(ok, b') := Keepalive registry ticket1 500 900 (2 ^ 64 - 800) (storeWith 800 []) in
  ok = true /\ OpenRetryable registry ticket1 501 b' = None.
Proof.
  pose proof (Keepalive_wraps registry ticket1 500 900 (2 ^ 64 - 800) (storeWith 800 [])) as H.
  cbn zeta in H. destruct (Keepalive _ _ _ _ _ _) as [ok b'].
  destruct H as (Hok & _ & _ & Habsent);
    [vm_compute; discriminate | vm_compute; discriminate |].
  split; [exact Hok|]. apply Habsent. vm_compute. reflexivity.
Defined.



(** *** The id of a redeem attempt *)

(** C9: [TxIdForRedeemAttempt] is the Keccak-256 hash of the ticket id, a
    zero byte and eight bytes that are the little-endian representation of
    the try sequence number; for the zero ticket and the number 1 these are
    33 zero bytes and then [01 00 00 00 00 00 00 00]. *)
Theorem TxIdForRedeemAttempt_spec
    (keccak256 : list byte -> common.Hash)
    (ticketId : common.Hash) (trySequenceNum : Z) :
  (0 <= trySequenceNum < 2 ^ 64 ->
   exists asBytes : list byte,
     length asBytes = 8%nat /\
     le_combine asBytes = trySequenceNum /\
     TxIdForRedeemAttempt keccak256 ticketId trySequenceNum =
       keccak256 (ticketId ++ [x00] ++ asBytes))
  /\
  TxIdForRedeemAttempt keccak256 (repeat x00 32) 1 =
    keccak256 (repeat x00 32 ++ [x00]
               ++ [Init.Byte.x01; x00; x00; x00; x00; x00; x00; x00]).
Proof.
  split; [|reflexivity].
  intros Hseq. exists (LittleEndian_PutUint64 trySequenceNum).
  split; [reflexivity|]. split.
  - rewrite LittleEndian_PutUint64_le_split, le_combine_split.
    apply Z.mod_small. cbn. lia.
  - unfold TxIdForRedeemAttempt, Keccak256Hash. cbn [concat].
    now rewrite app_nil_r.
Qed.

(** With a stand-in for the hash function that returns its input, the try
    number 258 contributes the bytes [02 01 00 00 00 00 00 00]. *)
Lemma TxIdForRedeemAttempt_spec_witness :
  TxIdForRedeemAttempt (fun data => data) ticket1 258 =
    ticket1 ++ [x00]
    ++ [Init.Byte.x02; Init.Byte.x01; x00; x00; x00; x00; x00; x00].
Proof.
  destruct (TxIdForRedeemAttempt_spec (fun data => data) ticket1 258) as [H _].
  destruct H as (asBytes & Hlen & Hval & ->); [lia|].
  do 2 f_equal.
  apply le_combine_inj; [exact Hlen|]. rewrite Hval. reflexivity.
Defined.

(** *** Witnesses for the reaper and the invariant *)

Lemma TryToReapOneRetryable_spec_witness :
  timeoutQueueOf registry
    (TryToReapOneRetryable registry 2000 (storeWith 1000 [])) = [] ++ [ticket1].
Proof.
  destruct (TryToReapOneRetryable_spec registry 2000 (storeWith 1000 []))
    as (_ & Hhead & _).
  destruct (Hhead ticket1 []) as [Hlive _]; [vm_compute; reflexivity|].
  eapply Hlive. vm_compute. reflexivity.
Defined.

Lemma queue_invariant_holds_witness :
  queue_invariant registry (storeWith 1000 []).
Proof.
  apply (queue_invariant_holds []). exists emptyBacking. split.
  - intros id Hlive. apply Hlive. reflexivity.
  - eapply rtc_l; [|apply rtc_refl].
    eapply (step_CreateRetryable _ 500 ticket1 1000 alice (Some bob) 0 carol (Some [])).
    reflexivity.
Defined.

End retryables_facts.

(** ** Further properties of the JIT validation host *)

Module server_jit_more.
Import server_jit server_jit_facts encoding_facts.
Local Open Scope io_scope.

(** *** The rendezvous and the request as a script *)

Lemma runScript_app evs1 evs2 w :
  runScript (evs1 ++ evs2) w = (runScript evs1 ;; runScript evs2) w.
Proof.
  unfold runScript. revert w. induction evs1 as [|ev evs1 IH]; intros w; cbn.
  - reflexivity.
  - unfold bind in *. destruct (syscall ev w) as [[err|[]] w1]; [reflexivity|].
    apply IH.
Qed.

(** An attempt at a script changes the trace only: it performs a prefix of
    the script. *)
Lemma runScript_shape evs w :
  exists k, (k <= length evs)%nat /\
    (runScript evs w).2 =
      mkWorld (failures w) (listenerAddr w) (mapOrder w) (incoming w) (trace w ++ take k evs).
Proof.
  unfold runScript. revert w. induction evs as [|ev evs IH]; intros w.
  - exists 0%nat. split; [lia|]. cbn. rewrite app_nil_r. now destruct w.
  - cbn [forEach]. unfold bind.
    assert (Hw1 : (syscall ev w).2 = record ev w)
      by (unfold syscall; now destruct (failures w _)).
    destruct (syscall ev w) as [[err|[]] w1]; cbn [snd] in Hw1; subst w1.
    + exists 1%nat. split; [cbn; lia|]. reflexivity.
    + destruct (IH (record ev w)) as (k & Hk & E). exists (S k).
      split; [cbn; lia|]. rewrite E. cbn. now rewrite <- app_assoc.
Qed.

Lemma syscall_world ev w : (syscall ev w).2 = record ev w.
Proof. unfold syscall. now destruct (failures w _). Qed.

Lemma scripted_syscall {order} ev : scripted order (syscall ev) [ev].
Proof.
  intros w _. unfold runScript. cbn. unfold bind, ret.
  now destruct (syscall ev w) as [[err|[]] w1].
Qed.

Lemma scripted_ret {order} : scripted order (ret tt) [].
Proof. intros w _. reflexivity. Qed.

Lemma scripted_bind {order} c k evs1 evs2 :
  scripted order c evs1 -> scripted order k evs2 ->
  scripted order (c ;; k) (evs1 ++ evs2).
Proof.
  intros Hc Hk w Ho. rewrite runScript_app. unfold bind. rewrite Hc by exact Ho.
  destruct (runScript_shape evs1 w) as (n & _ & E).
  destruct (runScript evs1 w) as [[err|[]] w1]; [reflexivity|].
  apply Hk. cbn [snd] in E. now rewrite E.
Qed.

Lemma scripted_forEach {order A} (xs : list A) body evs :
  (forall x, scripted order (body x) (evs x)) ->
  scripted order (forEach xs body) (concat (List.map evs xs)).
Proof.
  intros Hbody. induction xs as [|x xs IH]; cbn.
  - apply scripted_ret.
  - apply scripted_bind; [apply Hbody | apply IH].
Qed.

Lemma scripted_rangeMap {order K V} `{Countable K} rank (m : gmap K V) body evs :
  (forall x, scripted order (body x) (evs x)) ->
  scripted order (rangeMap rank m body)
    (concat (List.map evs (rangeOver (rank order) m))).
Proof.
  intros Hbody w Ho. unfold rangeMap. subst order.
  now apply (scripted_forEach (order := mapOrder w)).
Qed.

Lemma scripted_writeExact {order} data :
  scripted order (writeExact data) [ConnWrite data].
Proof. apply scripted_syscall. Qed.

Lemma scripted_writeBytes {order} data :
  scripted order (writeBytes data)
    [ConnWrite (UintToBytes (uint64 (len data))); ConnWrite data].
Proof. apply (scripted_bind _ _ [_] [_]); apply scripted_writeExact. Qed.

Ltac script_write := apply (scripted_bind _ _ [_]); [apply scripted_writeExact|].

Lemma scripted_sendRequest order entry :
  scripted order (sendRequest entry) (requestEvents order entry).
Proof.
  unfold sendRequest, requestEvents.
  do 4 script_write.
  apply scripted_bind.
  { apply scripted_forEach. intros batch. unfold batchEvents.
    do 2 script_write. apply scripted_writeBytes. }
  script_write.
  apply scripted_bind.
  { unfold delayedEvents. destruct (HasDelayedMsg entry); [|apply scripted_ret].
    do 2 script_write. apply scripted_writeBytes. }
  do 2 script_write.
  apply scripted_bind; [|apply scripted_writeExact].
  apply (scripted_rangeMap kindRank). intros [ty preimages]. unfold kindEvents.
  do 2 script_write.
  apply (scripted_rangeMap (fun o => preimageRank o ty)).
  intros [hash preimage]. unfold preimageEvents.
  script_write. apply scripted_writeBytes.
Qed.

Lemma bind_cong {A} (c : IO unit) (k1 k2 : unit -> IO A) w :
  (forall w', (c w).2 = w' -> k1 tt w' = k2 tt w') ->
  bind c k1 w = bind c k2 w.
Proof.
  intros H. unfold bind. specialize (H (c w).2 eq_refl).
  now destruct (c w) as [[err|[]] w'].
Qed.

Lemma rendezvous_script w : rendezvous w = runScript (rendezvousEvents w) w.
Proof.
  unfold rendezvous, runScript, rendezvousEvents. cbn [forEach].
  apply bind_cong. intros w1 H1. apply bind_cong. intros w2 H2.
  unfold bind at 1, formatAddress.
  rewrite syscall_world in H1, H2. subst w1 w2. cbn [listenerAddr record].
  do 3 (apply bind_cong; intros ? _).
  exact (scripted_syscall ConnSetWriteDeadline _ eq_refl).
Qed.

(** [prove], for a request that is not short-circuited: the script, and then
    the response. *)
Lemma prove_script ignoreList entry w :
  ignoreList !! Id entry = None ->
  prove_with ignoreList entry w =
    match runScript (proveScript entry w) w with
    | (inl err, w') => ((zeroState, Some err), w')
    | (inr _, w') => readResponse w'
    end.
Proof.
  intros Hid. unfold prove_with, proveScript. rewrite Hid.
  rewrite runScript_app. unfold bind.
  rewrite rendezvous_script.
  destruct (runScript_shape (rendezvousEvents w) w) as (k & _ & Hw1).
  destruct (runScript (rendezvousEvents w) w) as [[err|[]] w1]; [reflexivity|].
  cbn [snd] in Hw1.
  now rewrite (scripted_sendRequest (mapOrder w)) by now rewrite Hw1.
Qed.

(** *** Failures before the response *)

Lemma runScript_first_failure evs : forall w i err,
  (i < length evs)%nat ->
  (forall j, (j < i)%nat -> failures w (length (trace w) + j) = None) ->
  failures w (length (trace w) + i) = Some err ->
  runScript evs w =
    (inl err,
     mkWorld (failures w) (listenerAddr w) (mapOrder w) (incoming w) (trace w ++ take (S i) evs)).
Proof.
  unfold runScript. induction evs as [|ev evs IH]; intros w i err Hi Hbefore Hat.
  - cbn in Hi. lia.
  - cbn [forEach]. unfold bind, syscall at 1. destruct i as [|i].
    + rewrite Nat.add_0_r in Hat. rewrite Hat. reflexivity.
    + pose proof (Hbefore 0%nat ltac:(lia)) as H0. rewrite Nat.add_0_r in H0.
      rewrite H0. cbv beta iota. rewrite (IH (record ev w) i err).
      * cbn. now rewrite <- app_assoc.
      * cbn in Hi. lia.
      * intros j Hj. cbn. rewrite length_app. cbn.
        replace (length (trace w) + 1 + j)%nat with (length (trace w) + S j)%nat by lia.
        apply Hbefore. lia.
      * cbn. rewrite length_app. cbn.
        now replace (length (trace w) + 1 + i)%nat with (length (trace w) + S i)%nat by lia.
Qed.

(** X1: when an operation of the rendezvous or of the request is the first
    one to fail, [prove] returns its error together with the zero state, and
    it has performed the operations up to the failed one and none after it:
    in particular it has read nothing.  The operations of the request are
    those of [proveScript]: the preimages are written in the order in which
    the runtime of this call walks the maps, whichever that is. *)
Theorem prove_stops_at_first_failure
    (entry : ValidationInput) (w : World) (i : nat) (err : error) :
  ignoreProveBlocks !! Id entry = None ->
  (i < length (proveScript entry w))%nat ->
  (forall j, (j < i)%nat -> failures w (length (trace w) + j) = None) ->
  failures w (length (trace w) + i) = Some err ->
  prove entry w =
    ((zeroState, Some err),
     mkWorld (failures w) (listenerAddr w) (mapOrder w) (incoming w)
       (trace w ++ take (S i) (proveScript entry w))).
Proof.
  intros Hid Hi Hbefore Hat. unfold prove.
  rewrite prove_script by exact Hid.
  now rewrite (runScript_first_failure _ w i err).
Qed.

(** The operation number 14 fails, the write of the number of preimages of
    the first kind that is visited.  In a run that walks the kinds upwards,
    the kind byte [00] and the count 2 were written last; in a run that walks
    them downwards, the kind byte [01] and the count 1. *)
Lemma prove_stops_at_first_failure_witness :
  prove request8 (failingWorldIn upwards 14 [Init.Byte.x00]) =
    ((zeroState, Some (os_error "broken pipe")),
     mkWorld (failures (failingWorldIn upwards 14 [Init.Byte.x00])) "127.0.0.1:40000"
       upwards [Init.Byte.x00]
       (rendezvousEvents world5
        ++ [ConnWrite (UintToBytes 7); ConnWrite (UintToBytes 3);
            ConnWrite (repeat Init.Byte.xaa 32); ConnWrite (repeat Init.Byte.xbb 32);
            ConnWrite [Init.Byte.x00]; ConnWrite [Init.Byte.x00];
            ConnWrite (UintToBytes 2);
            ConnWrite [Init.Byte.x00]; ConnWrite (UintToBytes 2)])) /\
  prove request8 (failingWorldIn downwards 14 [Init.Byte.x00]) =
    ((zeroState, Some (os_error "broken pipe")),
     mkWorld (failures (failingWorldIn downwards 14 [Init.Byte.x00])) "127.0.0.1:40000"
       downwards [Init.Byte.x00]
       (rendezvousEvents world5
        ++ [ConnWrite (UintToBytes 7); ConnWrite (UintToBytes 3);
            ConnWrite (repeat Init.Byte.xaa 32); ConnWrite (repeat Init.Byte.xbb 32);
            ConnWrite [Init.Byte.x00]; ConnWrite [Init.Byte.x00];
            ConnWrite (UintToBytes 2);
            ConnWrite [Init.Byte.x01]; ConnWrite (UintToBytes 1)])).
Proof.
  split.
  - rewrite (prove_stops_at_first_failure request8
               (failingWorldIn upwards 14 [Init.Byte.x00]) 14
               (os_error "broken pipe")).
    + vm_compute. reflexivity.
    + vm_compute. reflexivity.
    + vm_compute. lia.
    + intros j Hj. cbn. do 14 (destruct j as [|j]; [reflexivity|]). lia.
    + reflexivity.
  - rewrite (prove_stops_at_first_failure request8
               (failingWorldIn downwards 14 [Init.Byte.x00]) 14
               (os_error "broken pipe")).
    + vm_compute. reflexivity.
    + vm_compute. reflexivity.
    + vm_compute. lia.
    + intros j Hj. cbn. do 14 (destruct j as [|j]; [reflexivity|]). lia.
    + reflexivity.
Defined.

(** *** The order of the operations *)

Lemma onlyReads_refl n w : onlyReads n w w.
Proof. exists []. rewrite app_nil_r. repeat split; [constructor | cbn; lia]. Qed.

Lemma onlyReads_trans n m w1 w2 w3 :
  onlyReads n w1 w2 -> onlyReads m w2 w3 -> onlyReads (n + m) w1 w3.
Proof.
  intros (r1 & E1 & F1 & L1) (r2 & E2 & F2 & L2). exists (r1 ++ r2).
  rewrite E2, E1, app_assoc. repeat split.
  - now apply Forall_app.
  - rewrite length_app. lia.
Qed.

Lemma onlyReads_read count w : onlyReads 1 w (read count w).2.
Proof.
  unfold read. destruct (count =? 0); [apply onlyReads_refl|].
  assert (H : onlyReads 1 w (record (ConnRead count) w)).
  { exists [ConnRead count]. split; [reflexivity|]. split; [|cbn; lia].
    repeat constructor. }
  destruct (failures w _); [exact H|]. destruct (_ <=? _)%nat; exact H.
Qed.

Lemma onlyReads_readUint64 w : onlyReads 1 w (readUint64 w).2.
Proof.
  unfold readUint64, bind. pose proof (onlyReads_read 8 w) as H.
  destruct (read 8 w) as [[err|slice] w']; exact H.
Qed.

Lemma onlyReads_readHash w : onlyReads 1 w (readHash w).2.
Proof.
  unfold readHash, bind. pose proof (onlyReads_read 32 w) as H.
  destruct (read 32 w) as [[err|slice] w']; exact H.
Qed.

Lemma onlyReads_le n m w w' : (n <= m)%nat -> onlyReads n w w' -> onlyReads m w w'.
Proof. intros Hle (r & E & F & L). exists r. repeat split; auto. lia. Qed.

Lemma onlyReads_readResponse w : onlyReads 5 w (readResponse w).2.
Proof.
  unfold readResponse.
  pose proof (onlyReads_read 1 w) as H1.
  destruct (read 1 w) as [[err|kind] w1]; cbn [snd] in *;
    [apply (onlyReads_le 1); [lia|exact H1]|].
  destruct (decide _).
  - pose proof (onlyReads_trans _ _ _ _ _ H1 (onlyReads_readUint64 w1)) as H2.
    destruct (readUint64 w1) as [[err|length] w2]; cbn [snd] in *;
      [apply (onlyReads_le (1 + 1)); [lia|exact H2]|].
    pose proof (onlyReads_trans _ _ _ _ _ H2 (onlyReads_read length w2)) as H3.
    apply (onlyReads_le (1 + 1 + 1)); [lia|].
    destruct (read length w2) as [[err|message] w3]; exact H3.
  - destruct (decide _); [|apply (onlyReads_le 1); [lia|exact H1]].
    pose proof (onlyReads_trans _ _ _ _ _ H1 (onlyReads_readUint64 w1)) as H2.
    destruct (readUint64 w1) as [[err|batch] w2]; cbn [snd] in *;
      [apply (onlyReads_le (1 + 1)); [lia|exact H2]|].
    pose proof (onlyReads_trans _ _ _ _ _ H2 (onlyReads_readUint64 w2)) as H3.
    destruct (readUint64 w2) as [[err|pos] w3]; cbn [snd] in *;
      [apply (onlyReads_le (1 + 1 + 1)); [lia|exact H3]|].
    pose proof (onlyReads_trans _ _ _ _ _ H3 (onlyReads_readHash w3)) as H4.
    destruct (readHash w3) as [[err|blockHash] w4]; cbn [snd] in *;
      [apply (onlyReads_le (1 + 1 + 1 + 1)); [lia|exact H4]|].
    pose proof (onlyReads_trans _ _ _ _ _ H4 (onlyReads_readHash w4)) as H5.
    apply (onlyReads_le (1 + 1 + 1 + 1 + 1)); [lia|].
    destruct (readHash w4) as [[err|sendRoot] w5]; exact H5.
Qed.

(** X2: when nothing fails, a [prove] call that is not short-circuited does
    the rendezvous first (listen, deadline, the address and a newline to the
    child's stdin, accept, two deadlines), then writes the whole request,
    the preimages in the order in which the runtime of this call walks the
    maps, and only then reads, at most five times; it writes to the child's
    stdin once and never writes to the connection after its first read. *)
Theorem prove_trace_order (entry : ValidationInput) (w : World) :
  ignoreProveBlocks !! Id entry = None ->
  faultless w ->
  exists reads,
    trace (prove entry w).2 =
      trace w ++ rendezvousEvents w ++ requestEvents (mapOrder w) entry ++ reads /\
    Forall isConnRead reads /\ (length reads <= 5)%nat.
Proof.
  intros Hid Hw. unfold prove. rewrite prove_faultless by assumption.
  destruct (onlyReads_readResponse
              (mkWorld (failures w) (listenerAddr w) (mapOrder w) (incoming w)
                 (trace w ++ rendezvousEvents w
                  ++ requestEvents (mapOrder w) entry)))
    as (reads & E & F & L).
  exists reads. rewrite E. cbn [trace]. rewrite <- !app_assoc. auto.
Qed.

(** A run that walks the maps downwards: the kind 1 and its preimage come
    first, then the kind 0 with the preimage of [0x02..] before the one of
    [0x01..]. *)
Lemma prove_trace_order_witness :
  exists reads,
    trace (prove request8
             (mkWorld (fun _ => None) "127.0.0.1:40000" downwards [] [])).2 =
      rendezvousEvents world5
      ++ [ConnWrite (UintToBytes 7); ConnWrite (UintToBytes 3);
          ConnWrite (repeat Init.Byte.xaa 32); ConnWrite (repeat Init.Byte.xbb 32);
          ConnWrite [Init.Byte.x00]; ConnWrite [Init.Byte.x00];
          ConnWrite (UintToBytes 2);
          ConnWrite [Init.Byte.x01]; ConnWrite (UintToBytes 1);
          ConnWrite (repeat Init.Byte.x03 32); ConnWrite (UintToBytes 0);
          ConnWrite [];
          ConnWrite [Init.Byte.x00]; ConnWrite (UintToBytes 2);
          ConnWrite (repeat Init.Byte.x02 32); ConnWrite (UintToBytes 2);
          ConnWrite [Init.Byte.x0b; Init.Byte.x0c];
          ConnWrite (repeat Init.Byte.x01 32); ConnWrite (UintToBytes 1);
          ConnWrite [Init.Byte.x0a];
          ConnWrite [Init.Byte.x04]]
      ++ reads /\
    Forall isConnRead reads /\ (length reads <= 5)%nat.
Proof.
  destruct (prove_trace_order request8
              (mkWorld (fun _ => None) "127.0.0.1:40000" downwards [] []))
    as (reads & E & F & L).
  - vm_compute. reflexivity.
  - intros n. reflexivity.
  - exists reads. split; [|split; assumption].
    rewrite E. vm_compute. reflexivity.
Defined.

(** *** Only a complete success frame gives a result *)

(** A read that succeeds took its bytes from the head of the stream. *)
Lemma read_inr count w bs w' :
  read count w = (inr bs, w') ->
  incoming w = bs ++ incoming w' /\
  (count <> 0 -> length bs = Z.to_nat count).
Proof.
  unfold read. destruct (count =? 0) eqn:E0.
  - intros [= <- <-]. split; [reflexivity|]. apply Z.eqb_eq in E0. lia.
  - destruct (failures w _); [discriminate|].
    destruct (_ <=? _)%nat eqn:Hle; [|discriminate].
    intros [= <- <-]. cbn [incoming]. apply Nat.leb_le in Hle.
    split; [symmetry; apply take_drop|]. intros _. rewrite length_take. lia.
Qed.

Lemma readUint64_inr w v w' :
  readUint64 w = (inr v, w') ->
  exists bs, length bs = 8%nat /\ incoming w = bs ++ incoming w' /\ v = be_combine bs.
Proof.
  unfold readUint64, bind. destruct (read 8 w) as [[err|bs] w1] eqn:E; [discriminate|].
  unfold ret. intros [= <- <-]. apply read_inr in E as [Hin Hlen].
  specialize (Hlen ltac:(lia)). exists bs. repeat split; auto.
  now apply BigEndian_Uint64_be.
Qed.

Lemma readHash_inr w h w' :
  readHash w = (inr h, w') ->
  length h = 32%nat /\ incoming w = h ++ incoming w'.
Proof.
  unfold readHash, bind. destruct (read 32 w) as [[err|bs] w1] eqn:E; [discriminate|].
  unfold ret. intros [= <- <-]. apply read_inr in E as [Hin Hlen].
  specialize (Hlen ltac:(lia)). unfold common.BytesToHash.
  rewrite setBytes_exact by exact Hlen. auto.
Qed.

Lemma readResponse_None w s :
  (readResponse w).1 = (s, None) ->
  exists batch pos blockHash sendRoot,
    length batch = 8%nat /\ length pos = 8%nat /\
    length blockHash = 32%nat /\ length sendRoot = 32%nat /\
    incoming w =
      Init.Byte.x00 :: batch ++ pos ++ blockHash ++ sendRoot
      ++ incoming (readResponse w).2 /\
    s = {| Batch := be_combine batch; PosInBatch := be_combine pos;
           BlockHash := blockHash; SendRoot := sendRoot |}.
Proof.
  unfold readResponse.
  destruct (read 1 w) as [[err|kind] w1] eqn:E1; [discriminate|].
  apply read_inr in E1 as [Hin1 Hlen1]. specialize (Hlen1 ltac:(lia)).
  destruct kind as [|k [|? ?]]; try discriminate. cbn [hd].
  destruct (decide (k = failureByte)).
  { destruct (readUint64 w1) as [[err|length] w2]; [discriminate|].
    destruct (read length w2) as [[err|message] w3]; discriminate. }
  destruct (decide (k = successByte)) as [->|]; [|discriminate].
  destruct (readUint64 w1) as [[err|batch] w2] eqn:E2; [discriminate|].
  destruct (readUint64 w2) as [[err|pos] w3] eqn:E3; [discriminate|].
  destruct (readHash w3) as [[err|blockHash] w4] eqn:E4; [discriminate|].
  destruct (readHash w4) as [[err|sendRoot] w5] eqn:E5; [discriminate|].
  cbn [fst snd]. intros [= <-].
  apply readUint64_inr in E2 as (bb & Lb & Hin2 & ->).
  apply readUint64_inr in E3 as (pb & Lp & Hin3 & ->).
  apply readHash_inr in E4 as (Lh & Hin4).
  apply readHash_inr in E5 as (Ls & Hin5).
  exists bb, pb, blockHash, sendRoot. repeat split; auto.
  rewrite Hin1, Hin2, Hin3, Hin4, Hin5. reflexivity.
Qed.

(** X3: in every environment, failures or not, a [prove] call that is not
    short-circuited returns a nil error only if the child's stream starts
    with [00], two 8-byte integers and two 32-byte hashes, and the state it
    returns is the one those 80 bytes spell; the stream has at least 81
    bytes then. *)
Theorem prove_success_sound
    (entry : ValidationInput) (w : World) (s : GoGlobalState) :
  ignoreProveBlocks !! Id entry = None ->
  (prove entry w).1 = (s, None) ->
  exists batch pos blockHash sendRoot rest,
    length batch = 8%nat /\ length pos = 8%nat /\
    length blockHash = 32%nat /\ length sendRoot = 32%nat /\
    incoming w = Init.Byte.x00 :: batch ++ pos ++ blockHash ++ sendRoot ++ rest /\
    s = {| Batch := be_combine batch; PosInBatch := be_combine pos;
           BlockHash := blockHash; SendRoot := sendRoot |} /\
    (81 <= length (incoming w))%nat.
Proof.
  intros Hid. unfold prove. rewrite prove_script by exact Hid.
  destruct (runScript_shape (proveScript entry w) w) as (k & _ & Hw1).
  destruct (runScript (proveScript entry w) w) as [[err|[]] w1];
    [discriminate|]. cbn [snd] in Hw1.
  intros Hres. apply readResponse_None in Hres
    as (batch & pos & blockHash & sendRoot & Lb & Lp & Lh & Ls & Hin & ->).
  rewrite Hw1 in Hin at 1. cbn [incoming] in Hin.
  exists batch, pos, blockHash, sendRoot, (incoming (readResponse w1).2).
  repeat split; auto.
  rewrite Hin. cbn [length]. rewrite !length_app. lia.
Qed.

(** The child answers with the state [{1, 2, 0x11.., 0x33..}]. *)
Lemma prove_success_sound_witness :
  exists batch pos blockHash sendRoot rest,
    incoming (failingWorld 99
      (Init.Byte.x00 :: BigEndian_PutUint64 1 ++ BigEndian_PutUint64 2
       ++ repeat Init.Byte.x11 32 ++ repeat Init.Byte.x33 32)) =
      Init.Byte.x00 :: batch ++ pos ++ blockHash ++ sendRoot ++ rest /\
    {| Batch := 1; PosInBatch := 2; BlockHash := repeat Init.Byte.x11 32;
       SendRoot := repeat Init.Byte.x33 32 |} =
    {| Batch := be_combine batch; PosInBatch := be_combine pos;
       BlockHash := blockHash; SendRoot := sendRoot |}.
Proof.
  destruct (prove_success_sound request7
              (failingWorld 99
                 (Init.Byte.x00 :: BigEndian_PutUint64 1 ++ BigEndian_PutUint64 2
                  ++ repeat Init.Byte.x11 32 ++ repeat Init.Byte.x33 32))
              {| Batch := 1; PosInBatch := 2; BlockHash := repeat Init.Byte.x11 32;
                 SendRoot := repeat Init.Byte.x33 32 |})
    as (batch & pos & blockHash & sendRoot & rest & _ & _ & _ & _ & Hin & Hs & _);
    [vm_compute; reflexivity | vm_compute; reflexivity |].
  exists batch, pos, blockHash, sendRoot, rest. split; assumption.
Defined.

(** *** What is written is what is read *)

Lemma be_combine_UintToBytes (v : Z) :
  0 <= v < 2 ^ 64 -> be_combine (UintToBytes v) = v.
Proof.
  intros Hv. unfold UintToBytes.
  rewrite BigEndian_PutUint64_be_split, be_combine_split.
  apply Z.mod_small. cbn. lia.
Qed.

(** X4: the encoding that [prove] writes the start state in is the one it
    reads the end state in.  When the child answers [00] followed by the
    80-byte block of a well-formed state [s], as [prove] itself would write
    it, [prove] returns [s] and no error. *)
Theorem prove_echo
    (entry : ValidationInput) (w : World) (s : GoGlobalState) (rest : list byte) :
  ignoreProveBlocks !! Id entry = None ->
  faultless w ->
  wellFormedState s ->
  incoming w = Init.Byte.x00 :: startStateBlock s ++ rest ->
  (prove entry w).1 = (s, None).
Proof.
  intros Hid Hw (Hb & Hp & Hh & Hs) Hin. unfold prove.
  rewrite prove_faultless by assumption.
  rewrite (readResponse_success _ (UintToBytes (Batch s)) (UintToBytes (PosInBatch s))
             (BlockHash s) (SendRoot s) rest); try assumption; try reflexivity.
  - rewrite !be_combine_UintToBytes by assumption. now destruct s.
  - cbn [incoming]. rewrite Hin. unfold startStateBlock.
    now rewrite <- !app_assoc.
Qed.

(** The child sends the start state of the request back. *)
Lemma prove_echo_witness :
  (prove request7
     (mkWorld (fun _ => None) "127.0.0.1:40000" keyOrder
        (Init.Byte.x00 :: startStateBlock (StartState request7) ++ []) [])).1
  = (StartState request7, None).
Proof.
  apply (prove_echo request7 _ (StartState request7) []).
  - vm_compute. reflexivity.
  - intros n. reflexivity.
  - repeat split; vm_compute; congruence.
  - reflexivity.
Defined.

(** *** The bytes of a request *)

Lemma connWritten_batches (batches : list BatchInfo) :
  connWritten (concat (List.map batchEvents batches)) =
    concat (List.map batchFrame batches).
Proof.
  induction batches as [|batch batches IH]; [reflexivity|].
  cbn [List.map concat]. rewrite connWritten_app, IH. f_equal.
  unfold batchEvents, batchFrame, connWritten, another. cbn [List.map concat app].
  now rewrite app_nil_r.
Qed.

Lemma connWritten_delayed entry :
  connWritten (delayedEvents entry) = delayedFrame entry.
Proof.
  unfold delayedEvents, delayedFrame. destruct (HasDelayedMsg entry); [|reflexivity].
  unfold connWritten, another. cbn [List.map concat app]. now rewrite app_nil_r.
Qed.

(** X5: the bytes of a request without preimages, batches and delayed message
    included.  When nothing fails, [prove] writes the start state block;
    per batch, in order, [03], the number and the length as 8 bytes each
    and the data; [00]; when there is a delayed message, [03], its number,
    its length and its bytes; [00]; the 8-byte count 0; and [04]. *)
Theorem prove_wire_without_preimages (entry : ValidationInput) (w : World) :
  ignoreProveBlocks !! Id entry = None ->
  Preimages entry = ∅ ->
  faultless w ->
  connWritten (trace (prove entry w).2) =
    connWritten (trace w)
    ++ startStateBlock (StartState entry)
    ++ concat (List.map batchFrame (BatchInfos entry))
    ++ [Init.Byte.x00]
    ++ delayedFrame entry
    ++ [Init.Byte.x00]
    ++ UintToBytes 0
    ++ [Init.Byte.x04].
Proof.
  intros Hid Hp Hw. unfold prove. rewrite prove_written by assumption. f_equal.
  unfold requestEvents. rewrite Hp, rangeOver_empty, map_size_empty.
  cbn [List.map concat].
  rewrite !connWritten_app, connWritten_batches, connWritten_delayed.
  unfold startStateBlock, connWritten. cbn [List.map concat].
  rewrite ?app_nil_r, <- !app_assoc. reflexivity.
Qed.

Lemma prove_wire_without_preimages_witness :
  connWritten (trace (prove request7 world5).2) =
    startStateBlock (StartState request7)
    ++ ([Init.Byte.x03] ++ UintToBytes 1 ++ UintToBytes 2 ++ [Init.Byte.x0a; Init.Byte.x0b])
    ++ ([Init.Byte.x03] ++ UintToBytes 2 ++ UintToBytes 0 ++ [])
    ++ [Init.Byte.x00]
    ++ ([Init.Byte.x03] ++ UintToBytes 9 ++ UintToBytes 1 ++ [Init.Byte.xff])
    ++ [Init.Byte.x00] ++ UintToBytes 0 ++ [Init.Byte.x04].
Proof.
  pose proof (prove_wire_without_preimages request7 world5) as H.
  rewrite H; [vm_compute; reflexivity | vm_compute; reflexivity | reflexivity
             | intros n; reflexivity].
Defined.

(** *** A stream that ends early *)

Lemma read_short count w :
  faultless w ->
  (length (incoming w) < Z.to_nat count)%nat ->
  (read count w).1 =
    inl (match incoming w with [] => io_EOF | _ => io_ErrUnexpectedEOF end).
Proof.
  intros Hw Hlen. unfold read.
  destruct (count =? 0) eqn:E0; [apply Z.eqb_eq in E0; subst; cbn in Hlen; lia|].
  rewrite Hw.
  replace (_ <=? _)%nat with false by (symmetry; apply Nat.leb_gt; lia).
  reflexivity.
Qed.

(** X6: a child that closes the connection early.  When nothing else fails
    and the stream is empty, [prove] returns [io.EOF] and the zero state.
    When the stream ends within the block hash of a success frame, [prove]
    returns an error, [io.EOF] if no byte of the hash came and
    [io.ErrUnexpectedEOF] otherwise, together with a state that holds the
    batch and the position that were read and zero hashes. *)
Theorem prove_truncated_stream (entry : ValidationInput) (w : World) :
  ignoreProveBlocks !! Id entry = None ->
  faultless w ->
  (incoming w = [] -> (prove entry w).1 = (zeroState, Some io_EOF)) /\
  (forall batch pos short : list byte,
     length batch = 8%nat -> length pos = 8%nat -> (length short < 32)%nat ->
     incoming w = Init.Byte.x00 :: batch ++ pos ++ short ->
     (prove entry w).1 =
       ({| Batch := be_combine batch; PosInBatch := be_combine pos;
           BlockHash := common.zeroHash; SendRoot := common.zeroHash |},
        Some (match short with [] => io_EOF | _ => io_ErrUnexpectedEOF end))).
Proof.
  intros Hid Hw. unfold prove. rewrite prove_faultless by assumption.
  set (w1 := mkWorld _ _ _ _ _). assert (Hw1 : faultless w1) by exact Hw.
  split.
  - intros Hin. unfold readResponse.
    pose proof (read_short 1 w1 Hw1) as E. cbn [incoming w1] in E.
    rewrite Hin in E. specialize (E ltac:(cbn; lia)).
    destruct (read 1 w1) as [[err|kind] w2]; cbn [fst] in E; [|discriminate].
    now inversion E.
  - intros batch pos short Lb Lp Lshort Hin. unfold readResponse.
    destruct (read_ok [Init.Byte.x00] (batch ++ pos ++ short) w1 Hw1 Hin) as [tr1 E1].
    change (len [Init.Byte.x00]) with 1 in E1. rewrite E1. clear E1. cbn [hd].
    destruct (decide (Init.Byte.x00 = failureByte)); [discriminate|].
    destruct (decide (Init.Byte.x00 = successByte)) as [_|Hne];
      [|now destruct Hne].
    edestruct (readUint64_ok batch) as [tr2 ->]; [exact Hw|exact Lb|reflexivity|].
    edestruct (readUint64_ok pos) as [tr3 ->]; [exact Hw|exact Lp|reflexivity|].
    set (w4 := mkWorld _ _ _ short _). unfold readHash, bind.
    pose proof (read_short 32 w4 Hw) as E. cbn [incoming w4] in E.
    specialize (E ltac:(cbn; lia)).
    destruct (read 32 w4) as [[err|slice] w5]; cbn [fst] in E; [|discriminate].
    now inversion E.
Qed.

(** The child sends the success byte, the batch 1, the position 2 and three
    bytes of the block hash. *)
Lemma prove_truncated_stream_witness :
  (prove request7 world5).1 = (zeroState, Some io_EOF) /\
  (prove request7
     (mkWorld (fun _ => None) "127.0.0.1:40000" keyOrder
        (Init.Byte.x00 :: BigEndian_PutUint64 1 ++ BigEndian_PutUint64 2
         ++ [Init.Byte.xaa; Init.Byte.xbb; Init.Byte.xcc]) [])).1
  = ({| Batch := 1; PosInBatch := 2;
        BlockHash := common.zeroHash; SendRoot := common.zeroHash |},
     Some io_ErrUnexpectedEOF).
Proof.
  split.
  - apply (prove_truncated_stream request7 world5);
      [vm_compute; reflexivity | intros n; reflexivity | reflexivity].
  - match goal with |- (prove request7 ?w).1 = _ =>
      destruct (prove_truncated_stream request7 w) as [_ H];
        [vm_compute; reflexivity | intros n; reflexivity |]
    end.
    apply (H (BigEndian_PutUint64 1) (BigEndian_PutUint64 2)
             [Init.Byte.xaa; Init.Byte.xbb; Init.Byte.xcc]);
      [reflexivity | reflexivity | cbn; lia | reflexivity].
Defined.

End server_jit_more.

(** ** Further properties of the retryable registry *)

Module retryables_more.
Import storage retryables encoding_facts retryables_facts.

(** *** Deleting *)

Lemma GetBytes_DeleteBytes sto b : GetBytes sto (DeleteBytes sto b) = [].
Proof. unfold GetBytes, DeleteBytes. cbn. now rewrite lookup_delete_eq. Qed.

Lemma OpenRetryable_fresh rs id now b :
  live rs id b -> OpenRetryable rs id now b = Some (freshHandle rs id).
Proof. intros H. now apply OpenRetryable_Some. Qed.

(** X7: [DeleteRetryable] on an absent ticket returns false and changes
    nothing.  On a live ticket it returns true; afterwards the ticket is
    absent to [OpenRetryable], its size is 0, its six slots are zero and its
    calldata is empty, the timeout queue is as before (the stale entry
    stays), and a second [DeleteRetryable] returns false and changes
    nothing. *)
Theorem DeleteRetryable_spec (rs : RetryableState) (id : common.Hash) (b : Backing) :
  (timeoutSlot rs id b = common.zeroHash -> DeleteRetryable rs id b = (false, b)) /\
  (live rs id b ->
   let '(ok, b') := DeleteRetryable rs id b in
   ok = true /\
   (forall now, OpenRetryable rs id now b' = None) /\
   (forall now, RetryableSizeBytes rs id now b' = 0) /\
   ticketView rs id b' = (repeat common.zeroHash 6, []) /\
   timeoutQueueOf rs b' = timeoutQueueOf rs b /\
   DeleteRetryable rs id b' = (false, b')).
Proof.
  unfold DeleteRetryable. fold (storageOf rs id). fold (timeoutSlot rs id b).
  split.
  - intros Habsent. destruct (decide _); [reflexivity|contradiction].
  - intros Hlive. destruct (decide _) as [E|_]; [contradiction|].
    cbv beta iota zeta.
    match goal with
    | |- _ /\ (forall now, OpenRetryable rs id now ?x = None) /\ _ => set (b' := x)
    end.
    assert (Hslot : timeoutSlot rs id b' = common.zeroHash).
    { unfold timeoutSlot, b'.
      change (GetByUint64 ?s ?o (DeleteBytes ?t ?x)) with (GetByUint64 s o x).
      now read_slot. }
    assert (Hopen : forall now, OpenRetryable rs id now b' = None)
      by (intros now; now apply OpenRetryable_None).
    split; [reflexivity|]. split; [exact Hopen|]. split.
    { intros now. unfold RetryableSizeBytes. now rewrite Hopen. }
    split.
    { unfold ticketView. f_equal.
      - unfold b'. cbn [List.map].
        change (GetByUint64 ?s ?o (DeleteBytes ?t ?x)) with (GetByUint64 s o x).
        read_slot. reflexivity.
      - apply GetBytes_DeleteBytes. }
    split; [reflexivity|].
    fold (timeoutSlot rs id b'). destruct (decide _); [reflexivity|contradiction].
Qed.

Lemma DeleteRetryable_spec_witness :
  let '(ok, b') := DeleteRetryable registry ticket1 (storeWith 1000 [Init.Byte.xaa]) in
  ok = true /\
  OpenRetryable registry ticket1 7 b' = None /\
  timeoutQueueOf registry b' = [ticket1] /\
  DeleteRetryable registry ticket1 b' = (false, b').
Proof.
  destruct (DeleteRetryable_spec registry ticket1 (storeWith 1000 [Init.Byte.xaa]))
    as [_ H].
  specialize (H ltac:(vm_compute; discriminate)).
  destruct (DeleteRetryable _ _ _) as [ok b'].
  destruct H as (Hok & Hopen & _ & _ & Hq & Hagain).
  split; [exact Hok|]. split; [apply Hopen|]. split; [|exact Hagain].
  rewrite Hq. vm_compute. reflexivity.
Defined.

(** *** Tickets do not disturb each other *)

Lemma calldataStorage_inj rs id id' :
  OpenSubStorage (storageOf rs id) calldataKey
    = OpenSubStorage (storageOf rs id') calldataKey -> id = id'.
Proof.
  intros E. apply app_inj_tail in E as [E _].
  now apply storageOf_inj in E.
Qed.

Lemma ticketView_slots_bytes rs id b b' :
  (forall offset, GetByUint64 (storageOf rs id) offset b'
                  = GetByUint64 (storageOf rs id) offset b) ->
  GetBytes (OpenSubStorage (storageOf rs id) calldataKey) b'
    = GetBytes (OpenSubStorage (storageOf rs id) calldataKey) b ->
  ticketView rs id b' = ticketView rs id b.
Proof.
  intros Hs Hb. unfold ticketView. rewrite Hb. f_equal.
  cbn [List.map]. now rewrite !Hs.
Qed.

Lemma ticketView_SetByUint64_other rs id id' offset value b :
  id' <> id ->
  ticketView rs id' (SetByUint64 (storageOf rs id) offset value b) = ticketView rs id' b.
Proof.
  intros Hne. apply ticketView_slots_bytes; [|reflexivity].
  intros offset'. apply GetByUint64_SetByUint64_ne.
  intros [= E]. apply storageOf_inj in E. congruence.
Qed.

Lemma ticketView_WriteBytes_other rs id id' data b :
  id' <> id ->
  ticketView rs id' (WriteBytes (OpenSubStorage (storageOf rs id) calldataKey) data b)
    = ticketView rs id' b.
Proof.
  intros Hne. apply ticketView_slots_bytes; [reflexivity|].
  unfold GetBytes, WriteBytes. cbn. rewrite lookup_insert_ne; [reflexivity|].
  intros E. apply calldataStorage_inj in E. congruence.
Qed.

Lemma ticketView_DeleteBytes_other rs id id' b :
  id' <> id ->
  ticketView rs id' (DeleteBytes (OpenSubStorage (storageOf rs id) calldataKey) b)
    = ticketView rs id' b.
Proof.
  intros Hne. apply ticketView_slots_bytes; [reflexivity|].
  unfold GetBytes, DeleteBytes. cbn. rewrite lookup_delete_ne; [reflexivity|].
  intros E. apply calldataStorage_inj in E. congruence.
Qed.

Lemma ticketView_TryToReapOneRetryable rs now id b :
  ticketView rs id (TryToReapOneRetryable rs now b) = ticketView rs id b.
Proof.
  destruct (TryToReapOneRetryable_queue rs now b) as (Hs & Hb & _).
  unfold ticketView, GetByUint64, GetBytes. now rewrite Hs, Hb.
Qed.

(** X8: an operation on the ticket [id] leaves what the store holds for every
    other ticket, its six slots and its calldata, as it was; that goes for
    [CreateRetryable], [DeleteRetryable] and [Keepalive] of [id], for
    [SetTimeout] and [IncrementNumTries] on a handle of [id], and
    [TryToReapOneRetryable] changes it for no ticket. *)
Theorem other_tickets_untouched
    (rs : RetryableState) (id id' : common.Hash) (b : Backing) :
  id' <> id ->
  (forall now timeout from to callvalue beneficiary calldata ret b',
     CreateRetryable rs now id timeout from to callvalue beneficiary calldata b
       = Some (ret, b') ->
     ticketView rs id' b' = ticketView rs id' b) /\
  ticketView rs id' (DeleteRetryable rs id b).2 = ticketView rs id' b /\
  (forall now limitBeforeAdd timeToAdd,
     ticketView rs id' (Keepalive rs id now limitBeforeAdd timeToAdd b).2
       = ticketView rs id' b) /\
  (forall retryable t,
     backingStorage retryable = storageOf rs id ->
     ticketView rs id' (SetTimeout retryable t b).2 = ticketView rs id' b) /\
  (forall retryable,
     backingStorage retryable = storageOf rs id ->
     ticketView rs id' (IncrementNumTries retryable b).2.2 = ticketView rs id' b) /\
  (forall now,
     ticketView rs id' (TryToReapOneRetryable rs now b) = ticketView rs id' b).
Proof.
  intros Hne. split; [|split; [|split; [|split; [|split]]]].
  - intros now timeout from to callvalue beneficiary calldata ret b' Hc.
    apply CreateRetryable_Some in Hc as (toBytes & _ & _ & ->).
    change (ticketView rs id' (Put ?q ?v ?x)) with (ticketView rs id' x).
    rewrite ticketView_WriteBytes_other by exact Hne.
    rewrite !ticketView_SetByUint64_other by exact Hne.
    apply ticketView_TryToReapOneRetryable.
  - unfold DeleteRetryable. fold (storageOf rs id).
    destruct (decide _); [reflexivity|]. cbn [snd].
    rewrite ticketView_DeleteBytes_other by exact Hne.
    now rewrite !ticketView_SetByUint64_other by exact Hne.
  - intros now limitBeforeAdd timeToAdd. unfold Keepalive.
    destruct (OpenRetryable rs id now b) as [ret|] eqn:Hopen; [|reflexivity].
    apply OpenRetryable_Some in Hopen as [_ ->]. cbn.
    destruct (_ >? _); [reflexivity|]. cbn.
    now apply ticketView_SetByUint64_other.
  - intros retryable t Hsto. unfold SetTimeout. cbn [snd]. rewrite Hsto.
    now apply ticketView_SetByUint64_other.
  - intros retryable Hsto. unfold IncrementNumTries.
    destruct (NumTries retryable b) as [n retryable'] eqn:E.
    assert (Hsto' : backingStorage retryable' = storageOf rs id).
    { unfold NumTries in E. destruct (numTries retryable); inversion E; subst; exact Hsto. }
    cbn. unfold SetUint64ByUint64. rewrite Hsto'.
    now apply ticketView_SetByUint64_other.
  - intros now. apply ticketView_TryToReapOneRetryable.
Qed.

(** The ticket [0x11..11] is deleted and kept alive; the ticket [0x22..22],
    created after it, does not notice. *)
Lemma other_tickets_untouched_witness :
  let ticket2 := repeat Init.Byte.x22 32 in
  let b := match CreateRetryable registry 600 ticket2 2000 bob (Some alice) 5 carol
                   (Some [Init.Byte.x01]) (storeWith 1000 []) with
           | Some (_, b) => b
           | None => store0
           end in
  ticketView registry ticket2 (DeleteRetryable registry ticket1 b).2
    = ticketView registry ticket2 b /\
  ticketView registry ticket2 (Keepalive registry ticket1 600 5000 60 b).2
    = ticketView registry ticket2 b.
Proof.
  cbn zeta.
  match goal with |- ticketView _ ?t (DeleteRetryable _ _ ?b).2 = _ /\ _ =>
    destruct (other_tickets_untouched registry ticket1 t b) as (_ & Hd & Hk & _)
  end.
  - vm_compute. discriminate.
  - split; [exact Hd | apply Hk].
Defined.

(** *** A sweep of the timeout queue *)

Lemma isLive_slots rs b b' id : slots b' = slots b -> isLive rs b' id = isLive rs b id.
Proof.
  intros E. unfold isLive, timeoutSlot, GetByUint64. now rewrite E.
Qed.

Lemma isLive_OpenRetryable rs b id now :
  OpenRetryable rs id now b = if isLive rs b id then Some (freshHandle rs id) else None.
Proof.
  unfold isLive. destruct (bool_decide_reflect (timeoutSlot rs id b <> common.zeroHash)) as [H|H].
  - now apply OpenRetryable_fresh.
  - apply OpenRetryable_None. now destruct (decide (timeoutSlot rs id b = common.zeroHash)).
Qed.

Lemma reap_steps rs now : forall (front back : list common.Hash) (b : Backing),
  timeoutQueueOf rs b = front ++ back ->
  let b' := Nat.iter (length front) (TryToReapOneRetryable rs now) b in
  timeoutQueueOf rs b' = back ++ List.filter (isLive rs b) front /\
  slots b' = slots b /\ byteStrings b' = byteStrings b.
Proof.
  induction front as [|hd front IH]; intros back b Hq; cbn zeta.
  - cbn. rewrite app_nil_r. auto.
  - cbn [length]. rewrite Nat.iter_succ_r.
    destruct (TryToReapOneRetryable_queue rs now b) as (Hs & Hb & Hq1).
    rewrite Hq in Hq1. cbn [app] in Hq1.
    rewrite isLive_OpenRetryable in Hq1.
    set (b1 := TryToReapOneRetryable rs now b) in *.
    cbn [List.filter]. destruct (isLive rs b hd).
    + rewrite <- app_assoc in Hq1.
      destruct (IH (back ++ [hd]) b1 Hq1) as (Hq' & Hs' & Hb').
      rewrite Hq', Hs', Hb', Hs, Hb. rewrite <- app_assoc. cbn [app].
      repeat split. f_equal. f_equal. apply List.filter_ext.
      intros id. now apply isLive_slots.
    + destruct (IH back b1 Hq1) as (Hq' & Hs' & Hb').
      rewrite Hq', Hs', Hb', Hs, Hb. repeat split. f_equal.
      apply List.filter_ext. intros id. now apply isLive_slots.
Qed.

(** X9: as many reaping steps as the timeout queue has entries leave exactly
    the ids of the live retryables in the queue, in their old order, and
    change no slot and no byte string: every stale entry is dropped, no live
    one is lost, whatever the timeouts and the current time are. *)
Theorem sweep_keeps_the_live (rs : RetryableState) (now : Z) (b : Backing) :
  timeoutQueueOf rs (sweep rs now b) = List.filter (isLive rs b) (timeoutQueueOf rs b) /\
  slots (sweep rs now b) = slots b /\
  byteStrings (sweep rs now b) = byteStrings b.
Proof.
  unfold sweep.
  destruct (reap_steps rs now (timeoutQueueOf rs b) [] b) as (Hq & Hs & Hb).
  - now rewrite app_nil_r.
  - auto.
Qed.

(** *** Counting tries *)

Lemma Uint64_Big_BigToHash (n : Z) :
  0 <= n < 2 ^ 64 -> common.Uint64 (common.Big (common.BigToHash n)) = n.
Proof.
  intros Hn. rewrite Big_BigToHash by lia. now apply uint64_small.
Qed.

Lemma uint64_range (x : Z) : 0 <= uint64 x < 2 ^ 64.
Proof. unfold uint64. apply Z.mod_pos_bound. lia. Qed.

Lemma NumTries_storage retryable b :
  backingStorage (NumTries retryable b).2 = backingStorage retryable /\
  id (NumTries retryable b).2 = id retryable.
Proof. unfold NumTries. now destruct (numTries retryable). Qed.

(** X10: [IncrementNumTries] returns the number of tries that the handle
    reads, plus one, as a [uint64] (so [2^64 - 1] is followed by [0]).  The
    handle returns the new number from then on, a handle on the same storage
    that has not loaded the number yet reads the new number from the store,
    and no other slot of the store changes. *)
Theorem IncrementNumTries_spec (retryable : Retryable) (b : Backing) :
  let n := (NumTries retryable b).1 in
  let '(newNumTries, (retryable', b')) := IncrementNumTries retryable b in
  newNumTries = uint64 (n + 1) /\
  (NumTries retryable' b').1 = newNumTries /\
  (forall other,
     backingStorage other = backingStorage retryable -> numTries other = None ->
     (NumTries other b').1 = newNumTries) /\
  (forall sto offset,
     (sto, offset) <> (backingStorage retryable, numTriesOffset) ->
     GetByUint64 sto offset b' = GetByUint64 sto offset b) /\
  byteStrings b' = byteStrings b /\ queues b' = queues b.
Proof.
  cbn zeta. unfold IncrementNumTries.
  destruct (NumTries_storage retryable b) as [Hsto _].
  destruct (NumTries retryable b) as [n retryable1]. cbn [fst snd] in *.
  unfold SetNumTries, SetUint64ByUint64. rewrite Hsto.
  split; [reflexivity|]. split; [reflexivity|]. split; [|split].
  - intros other Ho Hnone. unfold NumTries. rewrite Hnone, Ho. cbn [fst].
    rewrite GetByUint64_SetByUint64. apply Uint64_Big_BigToHash, uint64_range.
  - intros sto offset Hne. apply GetByUint64_SetByUint64_ne. congruence.
  - split; reflexivity.
Qed.

Lemma storedNumTries_countTry rs id b :
  live rs id b ->
  storedNumTries rs id (countTry rs id b) = uint64 (storedNumTries rs id b + 1) /\
  live rs id (countTry rs id b).
Proof.
  intros Hlive. unfold countTry. rewrite (OpenRetryable_fresh _ _ _ _ Hlive).
  unfold IncrementNumTries, NumTries, freshHandle.
  cbn [numTries backingStorage snd fst SetNumTries].
  fold (storedNumTries rs id b). unfold SetUint64ByUint64. split.
  - unfold storedNumTries at 1. rewrite GetByUint64_SetByUint64.
    apply Uint64_Big_BigToHash, uint64_range.
  - unfold live. now rewrite timeoutSlot_SetByUint64_offset by discriminate.
Qed.

(** X11: the try counter counts.  After [CreateRetryable] with a timeout
    between [0] and [2^63], [k] redeem attempts, each one opening the ticket
    and calling [IncrementNumTries], leave the ticket live with [k mod 2^64]
    as the number of tries that a newly opened handle reads. *)
Theorem tries_are_counted
    (rs : RetryableState) (now : Z) (id : common.Hash) (timeout : Z)
    (from toBytes : common.Address) (callvalue : Z)
    (beneficiary : common.Address) (calldata : option (list byte))
    (b : Backing) (k : nat) :
  0 < timeout < 2 ^ 63 ->
  exists created b',
    CreateRetryable rs now id timeout from (Some toBytes) callvalue
      beneficiary calldata b = Some (created, b') /\
    let b'' := Nat.iter k (countTry rs id) b' in
    exists opened,
      OpenRetryable rs id now b'' = Some opened /\
      (NumTries opened b'').1 = Z.of_nat k mod 2 ^ 64.
Proof.
  intros Ht.
  pose proof (created_slots rs now id timeout from toBytes callvalue
                beneficiary calldata b) as (Hs0 & Hs1 & _).
  match type of Hs0 with GetByUint64 _ _ ?x = _ => set (b' := x) in * end.
  eexists _, b'. split; [reflexivity|]. cbn zeta.
  assert (H : live rs id (Nat.iter k (countTry rs id) b') /\
              storedNumTries rs id (Nat.iter k (countTry rs id) b')
                = Z.of_nat k mod 2 ^ 64).
  { induction k as [|k [IHl IHn]].
    - change (Nat.iter 0 (countTry rs id) b') with b'. split.
      + unfold live, timeoutSlot. rewrite Hs1.
        now apply IntToHash_nonzero.
      + unfold storedNumTries. rewrite Hs0.
        rewrite Big_zeroHash. reflexivity.
    - rewrite Nat.iter_succ.
      destruct (storedNumTries_countTry rs id _ IHl) as [En El].
      split; [exact El|]. rewrite En, IHn. unfold uint64.
      rewrite Zplus_mod_idemp_l. f_equal. lia. }
  destruct H as [Hl Hn]. exists (freshHandle rs id).
  split; [now apply OpenRetryable_fresh|]. exact Hn.
Qed.

Lemma tries_are_counted_witness :
  exists created b',
    CreateRetryable registry 500 ticket1 1000 alice (Some bob) 0 carol
      (Some []) store0 = Some (created, b') /\
    exists opened,
      OpenRetryable registry ticket1 500 (Nat.iter 3 (countTry registry ticket1) b')
        = Some opened /\
      (NumTries opened (Nat.iter 3 (countTry registry ticket1) b')).1 = 3.
Proof.
  apply (tries_are_counted registry 500 ticket1 1000 alice bob 0 carol (Some []) store0 3).
  lia.
Defined.

(** *** The equality predicate *)

Ltac getter_reads :=
  intros [i s n t f o c be cd] b; unfold reads;
  unfold Timeout, From, To, Callvalue, Beneficiary, Calldata;
  cbn [retryables.id backingStorage numTries retryables.timeout
       retryables.from to retryables.callvalue retryables.beneficiary
       retryables.calldata];
  repeat match goal with
         | |- context [match ?x with Some _ => _ | None => _ end] => is_var x; destruct x
         end;
  reflexivity.

Lemma reads_Timeout : forall r b, reads (Timeout r b).2 b = reads r b.
Proof. getter_reads. Qed.
Lemma reads_From : forall r b, reads (From r b).2 b = reads r b.
Proof. getter_reads. Qed.
Lemma reads_To : forall r b, reads (To r b).2 b = reads r b.
Proof. getter_reads. Qed.
Lemma reads_Callvalue : forall r b, reads (Callvalue r b).2 b = reads r b.
Proof. getter_reads. Qed.
Lemma reads_Beneficiary : forall r b, reads (Beneficiary r b).2 b = reads r b.
Proof. getter_reads. Qed.

Lemma To_Some r b : exists a, (To r b).1 = Some a.
Proof. unfold To. destruct (to r); eauto. Qed.

(** The getters in the order of [Equals] return what they return on the
    handle as it was. *)
Lemma reads_in_sequence r b :
  let r1 := (Timeout r b).2 in
  let r2 := (From r1 b).2 in
  let r3 := (To r2 b).2 in
  let r4 := (Callvalue r3 b).2 in
  let r5 := (Beneficiary r4 b).2 in
  (From r1 b).1 = (From r b).1 /\
  (To r2 b).1 = (To r b).1 /\
  (Callvalue r3 b).1 = (Callvalue r b).1 /\
  (Beneficiary r4 b).1 = (Beneficiary r b).1 /\
  (Calldata r5 b).1 = (Calldata r b).1.
Proof.
  cbn zeta.
  pose proof (reads_Timeout r b) as H1.
  pose proof (reads_From (Timeout r b).2 b) as H2. rewrite H1 in H2.
  pose proof (reads_To (From (Timeout r b).2 b).2 b) as H3. rewrite H2 in H3.
  pose proof (reads_Callvalue (To (From (Timeout r b).2 b).2 b).2 b) as H4.
  rewrite H3 in H4.
  pose proof (reads_Beneficiary
                (Callvalue (To (From (Timeout r b).2 b).2 b).2 b).2 b) as H5.
  rewrite H4 in H5.
  unfold reads in *.
  repeat split; congruence.
Qed.

(** X12: [Equals] holds between two handles exactly when their ids are equal
    and the getters [Timeout], [From], [To], [Callvalue], [Beneficiary] and
    [Calldata] return equal values on the two of them, each on the handle as
    it was before the call (the caches that the getters fill on the way do
    not change a verdict). *)
Theorem Equals_iff_reads (retryable other : Retryable) (b : Backing) :
  (Equals retryable other b).1 = true <-> reads retryable b = reads other b.
Proof.
  destruct (reads_in_sequence retryable b) as (Rf & Rto & Rv & Rb & Rd).
  destruct (reads_in_sequence other b) as (Of & Oto & Ov & Ob & Od).
  destruct (To_Some retryable b) as [ra Hra].
  destruct (To_Some other b) as [oa Hoa].
  cbn zeta in *. unfold Equals, reads.
  rewrite Hra, Hoa. rewrite Hra in Rto. rewrite Hoa in Oto.
  case_bool_decide as Hid; cbn [negb]; [|split; [discriminate|congruence]].
  destruct (Timeout retryable b) as [rt r1], (Timeout other b) as [ot o1].
  cbn [fst snd] in *.
  destruct (Z.eqb_spec rt ot) as [Ht|Ht]; cbn [negb]; [|split; [discriminate|congruence]].
  destruct (From r1 b) as [rf r2], (From o1 b) as [of_ o2]. cbn [fst snd] in *.
  case_bool_decide as Hf; cbn [negb]; [|split; [discriminate|congruence]].
  destruct (To r2 b) as [rto r3], (To o2 b) as [oto o3]. cbn [fst snd] in *.
  subst rto oto.
  case_bool_decide as Hto; cbn [negb]; [|split; [discriminate|congruence]].
  destruct (Callvalue r3 b) as [rv r4], (Callvalue o3 b) as [ov o4].
  cbn [fst snd] in *.
  destruct (Z.eqb_spec rv ov) as [Hv|Hv]; cbn [negb]; [|split; [discriminate|congruence]].
  destruct (Beneficiary r4 b) as [rb r5], (Beneficiary o4 b) as [ob o5].
  cbn [fst snd] in *.
  case_bool_decide as Hb; cbn [negb]; [|split; [discriminate|congruence]].
  destruct (Calldata r5 b) as [rd r6], (Calldata o5 b) as [od o6].
  cbn [fst snd] in *.
  case_bool_decide as Hd; (split; [congruence|]); [reflexivity|congruence].
Qed.

(** A handle as [CreateRetryable] returns it and one as [OpenRetryable]
    returns it read the same, so [Equals] holds both ways. *)
Lemma Equals_iff_reads_witness :
  let created := mkRetryable ticket1 (storageOf registry ticket1) (Some 0) (Some 1000)
                   (Some alice) (Some bob) (Some 0) (Some carol) (Some []) in
  (Equals created (freshHandle registry ticket1) (storeWith 1000 [])).1 = true /\
  (Equals (freshHandle registry ticket1) created (storeWith 1000 [])).1 = true.
Proof.
  cbn zeta. split; apply Equals_iff_reads; vm_compute; reflexivity.
Defined.

(** *** Handles cache *)

(** X13: a handle keeps the timeout it has read.  When a handle of a live
    ticket has read the timeout [t] and the registry then keeps the ticket
    alive, with [t <= limitBeforeAdd] and [0 < t + timeToAdd < 2^63], the old
    handle still returns [t], while a handle opened afterwards returns
    [t + timeToAdd]. *)
Theorem Timeout_is_cached
    (rs : RetryableState) (id : common.Hash)
    (now limitBeforeAdd timeToAdd : Z) (b : Backing) (opened : Retryable) :
  OpenRetryable rs id now b = Some opened ->
  let '(t, held) := Timeout opened b in
  t <= limitBeforeAdd ->
  0 < t + timeToAdd < 2 ^ 63 ->
  let '(ok, b') := Keepalive rs id now limitBeforeAdd timeToAdd b in
  ok = true /\
  (Timeout held b').1 = t /\
  exists reopened,
    OpenRetryable rs id now b' = Some reopened /\
    (Timeout reopened b').1 = t + timeToAdd.
Proof.
  intros Hopen. apply OpenRetryable_Some in Hopen as [Hlive ->].
  unfold Timeout at 1. cbn [retryables.timeout backingStorage].
  fold (timeoutSlot rs id b). fold (storedTimeout rs id b).
  intros Hle Hsum. rewrite Keepalive_live by exact Hlive.
  replace (_ >? _) with false by (symmetry; rewrite Z.gtb_ltb; apply Z.ltb_ge; lia).
  split; [reflexivity|]. split; [reflexivity|].
  generalize dependent (storedTimeout rs id b). intros t _ Hsum.
  rewrite (uint64_small (t + timeToAdd)) by lia.
  exists (freshHandle rs id). split.
  - apply OpenRetryable_fresh. unfold live, timeoutSlot.
    rewrite GetByUint64_SetByUint64. apply IntToHash_nonzero. lia.
  - unfold Timeout, freshHandle. cbn [retryables.timeout backingStorage fst].
    rewrite GetByUint64_SetByUint64. apply Uint64_Big_IntToHash. lia.
Qed.

Lemma Timeout_is_cached_witness :
  let '(t, held) := Timeout (freshHandle registry ticket1) (storeWith 800 []) in
  let '(ok, b') := Keepalive registry ticket1 500 900 300 (storeWith 800 []) in
  t = 800 /\ ok = true /\ (Timeout held b').1 = 800 /\
  exists reopened,
    OpenRetryable registry ticket1 500 b' = Some reopened /\
    (Timeout reopened b').1 = 1100.
Proof.
  pose proof (Timeout_is_cached registry ticket1 500 900 300 (storeWith 800 [])
                (freshHandle registry ticket1) ltac:(vm_compute; reflexivity)) as H.
  destruct (Timeout _ _) as [t held] eqn:Et.
  assert (Ht : t = 800) by (apply (f_equal fst) in Et; vm_compute in Et; symmetry; exact Et).
  subst t. specialize (H ltac:(lia) ltac:(lia)).
  destruct (Keepalive _ _ _ _ _ _) as [ok b'].
  destruct H as (Hok & Hheld & Hre). auto.
Defined.

(** *** The size of a retryable *)

(** X14: [RetryableSizeBytes] is 0 for an absent ticket and
    [192 + len(calldata)], as a [uint64], for a live one, whatever the time;
    so for calldata shorter than [2^64 - 192] bytes it is 0 exactly when the
    ticket is absent, and at least 192 otherwise. *)
Theorem RetryableSizeBytes_spec
    (rs : RetryableState) (id : common.Hash) (now : Z) (b : Backing) :
  let calldata := GetBytes (OpenSubStorage (storageOf rs id) calldataKey) b in
  (timeoutSlot rs id b = common.zeroHash -> RetryableSizeBytes rs id now b = 0) /\
  (live rs id b ->
   RetryableSizeBytes rs id now b = uint64 (192 + uint64 (len calldata))) /\
  (len calldata < 2 ^ 64 - 192 ->
   (RetryableSizeBytes rs id now b = 0 <-> OpenRetryable rs id now b = None) /\
   (live rs id b -> RetryableSizeBytes rs id now b = 192 + len calldata)).
Proof.
  cbn zeta.
  assert (Hlive : live rs id b ->
    RetryableSizeBytes rs id now b
      = uint64 (192 + uint64 (len (GetBytes (OpenSubStorage (storageOf rs id) calldataKey) b)))).
  { intros H. unfold RetryableSizeBytes. rewrite (OpenRetryable_fresh _ _ _ _ H).
    reflexivity. }
  assert (Habsent : timeoutSlot rs id b = common.zeroHash ->
                    RetryableSizeBytes rs id now b = 0).
  { intros H. unfold RetryableSizeBytes.
    now rewrite (proj2 (OpenRetryable_None rs id now b) H). }
  split; [exact Habsent|]. split; [exact Hlive|].
  intros Hlen.
  assert (Hnn : 0 <= len (GetBytes (OpenSubStorage (storageOf rs id) calldataKey) b))
    by (unfold len; lia).
  assert (Hval : live rs id b ->
    RetryableSizeBytes rs id now b
      = 192 + len (GetBytes (OpenSubStorage (storageOf rs id) calldataKey) b)).
  { intros H. rewrite Hlive by exact H.
    rewrite (uint64_small (len _)) by lia. apply uint64_small. lia. }
  split; [|exact Hval]. split.
  - intros Hzero. apply OpenRetryable_None.
    destruct (decide (timeoutSlot rs id b = common.zeroHash)) as [E|E]; [exact E|].
    rewrite (Hval E) in Hzero. lia.
  - intros Hnone. apply Habsent. now apply OpenRetryable_None in Hnone.
Qed.

Lemma RetryableSizeBytes_spec_witness :
  RetryableSizeBytes registry ticket1 9
    (storeWith 1000 [Init.Byte.xaa; Init.Byte.xbb; Init.Byte.xcc]) = 192 + 3.
Proof.
  destruct (RetryableSizeBytes_spec registry ticket1 9
              (storeWith 1000 [Init.Byte.xaa; Init.Byte.xbb; Init.Byte.xcc]))
    as (_ & _ & H).
  destruct H as [_ H]; [vm_compute; reflexivity|].
  rewrite H; [vm_compute; reflexivity | vm_compute; discriminate].
Defined.

(** *** Keep-alive, again *)

(** X15: no double extension.  When [Keepalive] has moved the timeout of a
    live ticket from [t <= limitBeforeAdd] to [t + timeToAdd] with
    [limitBeforeAdd < t + timeToAdd < 2^63], every further [Keepalive] with
    that limit returns false and leaves the store as it is, whatever time is
    to be added. *)
Theorem Keepalive_not_twice
    (rs : RetryableState) (id : common.Hash)
    (now limitBeforeAdd timeToAdd : Z) (b : Backing) :
  live rs id b ->
  storedTimeout rs id b <= limitBeforeAdd ->
  limitBeforeAdd < storedTimeout rs id b + timeToAdd < 2 ^ 63 ->
  let '(ok, b') := Keepalive rs id now limitBeforeAdd timeToAdd b in
  ok = true /\
  forall now' timeToAdd',
    Keepalive rs id now' limitBeforeAdd timeToAdd' b' = (false, b').
Proof.
  intros Hlive Hle Hsum. rewrite Keepalive_live by exact Hlive.
  replace (_ >? _) with false by (symmetry; rewrite Z.gtb_ltb; apply Z.ltb_ge; lia).
  split; [reflexivity|]. intros now' timeToAdd'.
  assert (H0 : 0 <= storedTimeout rs id b) by apply uint64_range.
  generalize dependent (storedTimeout rs id b). intros t Hle Hsum Ht.
  rewrite (uint64_small (t + timeToAdd)) by lia.
  set (b' := SetByUint64 _ _ _ b).
  assert (Hstored : storedTimeout rs id b' = t + timeToAdd).
  { unfold storedTimeout, timeoutSlot, b'. rewrite GetByUint64_SetByUint64.
    apply Uint64_Big_IntToHash. lia. }
  assert (Hlive' : live rs id b').
  { unfold live, timeoutSlot, b'. rewrite GetByUint64_SetByUint64.
    apply IntToHash_nonzero. lia. }
  rewrite Keepalive_live by exact Hlive'. rewrite Hstored.
  now replace (_ >? _) with true by (symmetry; apply Z.gtb_gt; lia).
Qed.

Lemma Keepalive_not_twice_witness :
  let '(ok, b') := Keepalive registry ticket1 500 900 300 (storeWith 800 []) in
  ok = true /\ Keepalive registry ticket1 501 900 300 b' = (false, b').
Proof.
  pose proof (Keepalive_not_twice registry ticket1 500 900 300 (storeWith 800 [])) as H.
  destruct (Keepalive _ _ _ _ _ _) as [ok b'].
  destruct H as [Hok Hagain];
    [vm_compute; discriminate | vm_compute; discriminate
    | vm_compute; split; reflexivity |].
  split; [exact Hok | apply Hagain].
Defined.

(** *** The ids of redeem attempts *)

(** X16: two redeem attempts get the same id only if they are the same
    attempt or the hash function collides: for 32-byte ticket ids and
    [uint64] try numbers, equal results of [TxIdForRedeemAttempt] come from
    the same ticket and the same try number, or from two different byte
    strings with the same Keccak-256 hash. *)
Theorem TxIdForRedeemAttempt_collision
    (keccak256 : list byte -> common.Hash)
    (ticketId ticketId' : common.Hash) (trySequenceNum trySequenceNum' : Z) :
  length ticketId = 32%nat -> length ticketId' = 32%nat ->
  0 <= trySequenceNum < 2 ^ 64 -> 0 <= trySequenceNum' < 2 ^ 64 ->
  TxIdForRedeemAttempt keccak256 ticketId trySequenceNum
    = TxIdForRedeemAttempt keccak256 ticketId' trySequenceNum' ->
  (ticketId = ticketId' /\ trySequenceNum = trySequenceNum') \/
  (exists x y, x <> y /\ keccak256 x = keccak256 y).
Proof.
  intros Hl Hl' Hn Hn' E. unfold TxIdForRedeemAttempt, Keccak256Hash in E.
  cbn [concat] in E. rewrite !app_nil_r in E.
  match type of E with keccak256 ?x = keccak256 ?y =>
    destruct (decide (x = y)) as [Exy|Nxy]; [left|right; exists x, y; auto]
  end.
  apply app_inj_1 in Exy as [-> Etail]; [|congruence].
  split; [reflexivity|].
  apply app_inv_head in Etail.
  rewrite (LittleEndian_PutUint64_le_split trySequenceNum),
    (LittleEndian_PutUint64_le_split trySequenceNum') in Etail.
  apply (f_equal le_combine) in Etail.
  rewrite (le_combine_split 8 trySequenceNum),
    (le_combine_split 8 trySequenceNum') in Etail.
  rewrite (Z.mod_small trySequenceNum), (Z.mod_small trySequenceNum') in Etail
    by (cbn; lia).
  exact Etail.
Qed.

(** With a hash function that maps everything to the empty string, the tries
    4 and 5 of a ticket get the same id, and the theorem hands out the
    collision. *)
Lemma TxIdForRedeemAttempt_collision_witness :
  (ticket1 = ticket1 /\ 4 = 5) \/
  (exists x y : list byte, x <> y).
Proof.
  destruct (TxIdForRedeemAttempt_collision (fun _ => []) ticket1 ticket1 4 5
              eq_refl eq_refl ltac:(lia) ltac:(lia) eq_refl)
    as [H|(x & y & Hne & Hxy)].
  - left. exact H.
  - right. exists x, y. exact Hne.
Defined.

(** *** Deleted tickets leave the queue *)

Lemma timeoutSlot_ticketView rs id b b' :
  ticketView rs id b' = ticketView rs id b -> timeoutSlot rs id b' = timeoutSlot rs id b.
Proof.
  unfold ticketView. cbn [List.map]. intros [= _ E _]. exact E.
Qed.

(** X17: a deleted ticket leaves the timeout queue within one sweep.  After
    [DeleteRetryable] of a live ticket, as many reaping steps as the queue
    has entries leave a queue without the ticket's id, and with the id of
    every other ticket exactly when it was queued and live before. *)
Theorem delete_then_sweep
    (rs : RetryableState) (id : common.Hash) (now : Z) (b : Backing) :
  live rs id b ->
  let b' := sweep rs now (DeleteRetryable rs id b).2 in
  (id ∉ timeoutQueueOf rs b') /\
  forall id', id' <> id ->
    (id' ∈ timeoutQueueOf rs b' <-> id' ∈ timeoutQueueOf rs b /\ live rs id' b).
Proof.
  intros Hlive. cbn zeta.
  destruct (DeleteRetryable_spec rs id b) as [_ Hdel]. specialize (Hdel Hlive).
  pose proof (other_tickets_untouched rs id) as Hother.
  destruct (DeleteRetryable rs id b) as [ok b1] eqn:Ed.
  destruct Hdel as (_ & Hopen & _ & _ & Hq & _). cbn [snd].
  destruct (sweep_keeps_the_live rs now b1) as (Hsweep & _ & _).
  rewrite Hsweep, Hq. split.
  - rewrite list_elem_of_In, filter_In. intros [_ Hl].
    unfold isLive in Hl. apply bool_decide_eq_true in Hl.
    apply Hl. apply (proj1 (OpenRetryable_None rs id 0 b1)). apply Hopen.
  - intros id' Hne.
    destruct (Hother id' b Hne) as (_ & Hview & _). rewrite Ed in Hview.
    cbn [snd] in Hview. apply timeoutSlot_ticketView in Hview.
    rewrite !list_elem_of_In, filter_In. unfold isLive, live.
    rewrite bool_decide_eq_true, Hview. reflexivity.
Qed.

Lemma delete_then_sweep_witness :
  ticket1 ∉ timeoutQueueOf registry
    (sweep registry 5 (DeleteRetryable registry ticket1 (storeWith 1000 [])).2).
Proof.
  apply (delete_then_sweep registry ticket1 5 (storeWith 1000 [])).
  vm_compute. discriminate.
Defined.

(** A handle with the counter at its largest value: the next try is number
    0. *)
Lemma IncrementNumTries_spec_witness :
  (IncrementNumTries
     (mkRetryable ticket1 (storageOf registry ticket1) (Some (2 ^ 64 - 1))
        None None None None None None)
     (storeWith 1000 [])).1 = 0.
Proof.
  pose proof (IncrementNumTries_spec
                (mkRetryable ticket1 (storageOf registry ticket1) (Some (2 ^ 64 - 1))
                   None None None None None None)
                (storeWith 1000 [])) as H.
  cbn zeta in H. destruct (IncrementNumTries _ _) as [m [r' b']].
  destruct H as [-> _]. reflexivity.
Defined.

End retryables_more.
